(** * S3-bucket: the object/folder management layer of [bucket.py]

    A shallow embedding of the [Bucket] class of [src/bucket.py] and of
    [change_timezone] of [src/timezone.py].

    The boto3 client, the operating system and the time zone database are
    external collaborators.  They are modelled by a world: the bucket (a
    finite map from keys to objects), the local disk, the time zones, a
    schedule of store failures, the log of the calls made to the client
    and the lines printed.  The methods of [Bucket] are functions in a
    state and exception monad over that world; [try]/[except] is
    [try_except]. *)

From Stdlib Require Import ZArith.
From stdpp Require Import base option list sorting gmap strings fin_maps.

(** ** Python strings *)

Module Py.

(** [s.endswith(suffix)] *)
Definition endswith (s suffix : string) : bool :=
  bool_decide (String.length suffix ≤ String.length s) &&
  String.eqb
    (String.substring (String.length s - String.length suffix)
                      (String.length suffix) s)
    suffix.

Fixpoint drop_chars (n : nat) (s : string) : string :=
  match n, s with
  | S n', String _ s' => drop_chars n' s'
  | _, _ => s
  end.

(** [s.replace(old, new, 1)]: only the leftmost occurrence is replaced. *)
Fixpoint replace_first (s old new : string) : string :=
  if String.prefix old s then new +:+ drop_chars (String.length old) s
  else match s with
       | EmptyString => EmptyString
       | String c s' => String c (replace_first s' old new)
       end.

(** [os.path.basename(path)]: what follows the last ['/']. *)
Fixpoint basename_go (cur s : string) : string :=
  match s with
  | EmptyString => String.rev cur
  | String c s' =>
      if String.eqb (String c EmptyString) "/" then basename_go EmptyString s'
      else basename_go (String c cur) s'
  end.
Definition basename (path : string) : string := basename_go EmptyString path.

(** Truth value of a [str]. *)
Definition truthy_str (s : string) : bool := negb (String.eqb s EmptyString).

(** The exceptions that occur.  [ClientError] is botocore's, the only one
    with a [response] attribute; [BotoCoreError] stands for the client's
    other exceptions ([NoCredentialsError], [EndpointConnectionError],
    [ParamValidationError], ...), which [check_credentials] handles apart
    from [ClientError].  [OtherError] is any further exception class, by
    its name: the [OSError]s other than [FileNotFoundError]
    ([NotADirectoryError], [PermissionError], ...), [OverflowError],
    pytz's [UnknownTimeZoneError]. *)
Inductive exn : Type :=
| ClientError (code : string)
| BotoCoreError (name : string)
| FileNotFoundError
| AttributeError
| TypeError
| IndexError
| Exception (msg : string)
| OtherError (name : string).

End Py.
Export Py.

(** ** Dates *)

(** An aware [datetime]: the instant, in seconds from the epoch, and the
    offset from UTC of the zone in which it is expressed. *)
Record datetime : Type := mkDatetime { utc_seconds : Z; utc_offset : Z }.

(** The range of [datetime], from 0001-01-01 00:00:00 to
    9999-12-31 23:59:59, in seconds from the epoch. *)
Definition datetime_min : Z := (-62135596800)%Z.
Definition datetime_max : Z := 253402300799%Z.

(** A time zone, as [pytz.timezone] returns it: the offset from UTC that
    the zone has at an instant. *)
Definition tzinfo : Type := Z → Z.

(** ** The store *)

Record Object : Type := mkObject {
  Body : string;
  ObjContentType : string;
  ObjLastModified : datetime
}.

(** The entity tag is a fingerprint of the content; the model takes the
    fingerprint to be injective and uses the content itself. *)
Definition etag_of (body : string) : string := body.

(** The four fields [self.file_metadata] selects from a head response. *)
Record Metadata : Type := mkMetadata {
  LastModified : datetime;
  ContentLength : nat;
  ContentType : string;
  ETag : string
}.

(** One entry of [response['Contents']]. *)
Record ObjectSummary : Type := mkSummary {
  Key : string;
  Size : nat;
  SummaryETag : string
}.

(** The continuation marker is opaque to the client. The store uses the
    position at which the next page starts. *)
Inductive Token : Type := NextAt (position : nat).

Record ListResponse : Type := mkListResponse {
  Contents : option (list ObjectSummary);
  IsTruncated : bool;
  NextContinuationToken : option Token
}.

Inductive Url : Type := Presigned (key : string) (expires_in : nat).

Inductive Request : Type :=
| ReqListBuckets
| ReqHead (key : string)
| ReqList (prefix : option string) (token : option Token) (max_keys : option nat)
| ReqPut (key : string)
| ReqCopy (source dest : string)
| ReqDelete (key : string)
| ReqDeleteBatch (keys : list string)
| ReqPresign (key : string) (expires_in : nat)
| ReqUpload (file_path key : string).

(** What is printed.  The count line of [get_object_list] carries its
    number; every other [print] is kept as its fixed text, without the
    values interpolated into it, and blank lines are left out. *)
Inductive Printed : Type :=
| Text (line : string)
| TotalFiles (n : nat).

(** [disk] holds the regular files that can be read; directories are not
    modelled.  For a path that is not in [disk] the operating system
    answers [os.stat] with an [OSError]: the one that [os_errors] gives for
    the path ([NotADirectoryError] for a path below a regular file,
    [PermissionError], ...), and [FileNotFoundError] for a path that
    [os_errors] does not mention.  [tzdata] is the time zone database that
    pytz reads, by zone name.  [faults] schedules the answers of the store:
    the next request that the client sends fails with the error at the
    head, or is served when the head is [None] or the schedule is used
    up. *)
Record World : Type := mkWorld {
  objects : gmap string Object;
  page_cap : nat;                 (* keys per listing page (S3: 1000) *)
  now : datetime;                 (* the store's clock *)
  disk : gmap string string;      (* local files: path to bytes *)
  os_errors : gmap string exn;    (* paths for which the system fails *)
  tzdata : gmap string tzinfo;    (* the time zones, by name *)
  faults : list (option exn);     (* per request: the error it fails with *)
  requests : list Request;        (* calls made to the client so far *)
  stdout : list Printed
}.

Definition set_objects (m : gmap string Object) (w : World) : World :=
  {| objects := m; page_cap := page_cap w; now := now w; disk := disk w;
     os_errors := os_errors w; tzdata := tzdata w;
     faults := faults w; requests := requests w; stdout := stdout w |}.

Definition set_faults (fs : list (option exn)) (w : World) : World :=
  {| objects := objects w; page_cap := page_cap w; now := now w; disk := disk w;
     os_errors := os_errors w; tzdata := tzdata w;
     faults := fs; requests := requests w; stdout := stdout w |}.

Definition log_request (r : Request) (w : World) : World :=
  {| objects := objects w; page_cap := page_cap w; now := now w; disk := disk w;
     os_errors := os_errors w; tzdata := tzdata w;
     faults := faults w; requests := requests w ++ [r]; stdout := stdout w |}.

Definition log_print (p : Printed) (w : World) : World :=
  {| objects := objects w; page_cap := page_cap w; now := now w; disk := disk w;
     os_errors := os_errors w; tzdata := tzdata w;
     faults := faults w; requests := requests w; stdout := stdout w ++ [p] |}.

(** ** The monad: state, exceptions, and fuel for [while True] *)

Inductive Res (A : Type) : Type :=
| Ret (a : A)
| Raise (e : exn)
| OutOfFuel.
Arguments Ret {A} a.
Arguments Raise {A} e.
Arguments OutOfFuel {A}.

Definition M (A : Type) : Type := World → Res A * World.

Definition ret {A} (a : A) : M A := λ w, (Ret a, w).
Definition raise {A} (e : exn) : M A := λ w, (Raise e, w).

Definition bind {A B} (c : M A) (k : A → M B) : M B :=
  λ w, match c w with
       | (Ret a, w') => k a w'
       | (Raise e, w') => (Raise e, w')
       | (OutOfFuel, w') => (OutOfFuel, w')
       end.

Declare Scope py_scope.
Delimit Scope py_scope with py.
Notation "x <- c ;; k" := (bind c (λ x, k))
  (at level 100, c at next level, right associativity) : py_scope.
Notation "c ;; k" := (bind c (λ _, k))
  (at level 100, right associativity) : py_scope.
Local Open Scope py_scope.

(** [try: body except Exception as e: handler e].  Running out of fuel is
    not an exception. *)
Definition try_except {A} (body : M A) (handler : exn → M A) : M A :=
  λ w, match body w with
       | (Raise e, w') => handler e w'
       | r => r
       end.

Definition print (p : Printed) : M unit := λ w, (Ret tt, log_print p w).

(** [e.response['Error']['Code']]: only a [ClientError] has [response]. *)
Definition error_code (e : exn) : M string :=
  match e with
  | ClientError code => ret code
  | _ => raise AttributeError
  end.

(** [for x in xs: body x] *)
Fixpoint for_each {A} (xs : list A) (body : A → M unit) : M unit :=
  match xs with
  | [] => ret tt
  | x :: xs' => body x ;; for_each xs' body
  end.

(** ** timezone.py *)

(** [pytz.timezone(name)] raises [UnknownTimeZoneError] for a name that the
    database does not have. *)
Definition pytz_timezone (name : string) : M tzinfo :=
  λ w, match tzdata w !! name with
       | Some tz => (Ret tz, w)
       | None => (Raise (OtherError "UnknownTimeZoneError"), w)
       end.

(** [date_.astimezone(tz)]: the same instant at the offset of the zone;
    [OverflowError] when the local time leaves the range of [datetime]. *)
Definition astimezone (date_ : datetime) (tz : tzinfo) : M datetime :=
  let offset := tz (utc_seconds date_) in
  if bool_decide (datetime_min ≤ utc_seconds date_ + offset ≤ datetime_max)%Z
  then ret {| utc_seconds := utc_seconds date_; utc_offset := offset |}
  else raise (OtherError "OverflowError").

Definition change_timezone (date_ : datetime) (timezone : string)
  : M datetime :=
  try_except
    (timezone <- pytz_timezone timezone ;;
     astimezone date_ timezone)
    (λ e,
       print (Text "Cannot convert t loacl time zone: ") ;;
       ret date_).

(** ** The client's primitive operations *)

Module Client.

(** The client checks the parameters of a call against the service model
    before it sends anything: a [Key] is a string of at least one
    character.  The source of a copy is passed as [CopySource], which is
    not checked in this way. *)
Definition valid (r : Request) : bool :=
  match r with
  | ReqHead key | ReqPut key | ReqDelete key | ReqPresign key _
  | ReqUpload _ key => truthy_str key
  | ReqCopy _ dest => truthy_str dest
  | ReqDeleteBatch keys => forallb truthy_str keys
  | ReqListBuckets | ReqList _ _ _ => true
  end.

(** Every call is logged.  A call with an invalid parameter raises
    [ParamValidationError] and no request is sent; otherwise the request
    fails with the scheduled error if there is one, and is served if
    not. *)
Definition call {A} (r : Request) (serve : M A) : M A :=
  λ w, let w1 := log_request r w in
       if valid r then
         match faults w1 with
         | Some e :: fs => (Raise e, set_faults fs w1)
         | None :: fs => serve (set_faults fs w1)
         | [] => serve w1
         end
       else (Raise (BotoCoreError "ParamValidationError"), w1).

Definition stored (body : string) (w : World) : Object :=
  {| Body := body; ObjContentType := "binary/octet-stream";
     ObjLastModified := now w |}.

Definition metadata_of (o : Object) : Metadata :=
  {| LastModified := ObjLastModified o;
     ContentLength := String.length (Body o);
     ContentType := ObjContentType o;
     ETag := etag_of (Body o) |}.

Definition summary (kv : string * Object) : ObjectSummary :=
  {| Key := kv.1; Size := String.length (Body kv.2);
     SummaryETag := etag_of (Body kv.2) |}.

Definition key_le (a b : string * Object) : Prop := String.le a.1 b.1.
Global Instance key_le_dec : RelDecision key_le.
Proof. intros a b. unfold key_le. apply _. Defined.

(** All entries of the bucket in the store's order (by key). *)
Definition in_order (m : gmap string Object) : list (string * Object) :=
  merge_sort key_le (map_to_list m).

(** The whole (unpaged) listing under a prefix. *)
Definition listing (prefix : string) (m : gmap string Object)
  : list ObjectSummary :=
  summary <$> filter (λ kv, String.prefix prefix kv.1 = true) (in_order m).

Definition list_buckets : M unit := call ReqListBuckets (ret tt).

Definition head_object (key : string) : M Metadata :=
  call (ReqHead key) (λ w,
    match objects w !! key with
    | Some o => (Ret (metadata_of o), w)
    | None => (Raise (ClientError "404"), w)
    end).

Definition position (token : option Token) : nat :=
  match token with Some (NextAt i) => i | None => 0 end.

Definition page_size (max_keys : option nat) (w : World) : nat :=
  match max_keys with
  | Some k => k `min` page_cap w
  | None => page_cap w
  end.

(** The page of at most [n] entries of [all] that starts at [start]. *)
Definition page_of (all : list ObjectSummary) (start n : nat) : ListResponse :=
  let page := take n (drop start all) in
  let more := bool_decide (start + n < length all) in
  {| Contents := match page with [] => None | _ => Some page end;
     IsTruncated := more;
     NextContinuationToken :=
       if more then Some (NextAt (start + n)) else None |}.

Definition list_objects_v2 (prefix : option string) (token : option Token)
    (max_keys : option nat) : M ListResponse :=
  call (ReqList prefix token max_keys) (λ w,
    (Ret (page_of (listing (default EmptyString prefix) (objects w))
                  (position token) (page_size max_keys w)), w)).

Definition put_object (key : string) : M unit :=
  call (ReqPut key) (λ w,
    (Ret tt, set_objects (<[key := stored EmptyString w]> (objects w)) w)).

(** The store refuses to copy an object onto itself. *)
Definition copy_object (source dest : string) : M unit :=
  call (ReqCopy source dest) (λ w,
    match objects w !! source with
    | Some o =>
        if String.eqb source dest then (Raise (ClientError "InvalidRequest"), w)
        else
          let o' := {| Body := Body o; ObjContentType := ObjContentType o;
                       ObjLastModified := now w |} in
          (Ret tt, set_objects (<[dest := o']> (objects w)) w)
    | None => (Raise (ClientError "NoSuchKey"), w)
    end).

(** Deleting a key that is absent is not an error. *)
Definition delete_object (key : string) : M unit :=
  call (ReqDelete key) (λ w,
    (Ret tt, set_objects (delete key (objects w)) w)).

Definition delete_objects (keys : list string) : M unit :=
  call (ReqDeleteBatch keys) (λ w,
    (Ret tt, set_objects (foldr delete (objects w) keys) w)).

Definition generate_presigned_url (key : string) (expires_in : nat) : M Url :=
  call (ReqPresign key expires_in) (ret (Presigned key expires_in)).

(** The transfer stores the bytes of the local file, then the callback
    runs. *)
Definition upload_file (file_path key : string) (Callback : M unit) : M unit :=
  call (ReqUpload file_path key) (λ w,
    match disk w !! file_path with
    | Some bytes =>
        Callback (set_objects (<[key := stored bytes w]> (objects w)) w)
    | None => (Raise FileNotFoundError, w)
    end).

End Client.

(** [os.path.getsize(path)]: the size of a regular file, and the error of
    the operating system for any other path. *)
Definition os_path_getsize (path : string) : M nat :=
  λ w, match disk w !! path with
       | Some bytes => (Ret (String.length bytes), w)
       | None => (Raise (default FileNotFoundError (os_errors w !! path)), w)
       end.

(** Modelled from the spec: [ProgressPercentage] of [progress.py], the
    callback that [upload_file] hands to the client, is not among the
    sources.  The spec has it purely observational, with no effect on the
    control flow: the model's callback does nothing. *)
Definition ProgressPercentage (file_path : string) : M unit := ret tt.

(** ** bucket.py: the methods of [Bucket] *)

(** What [get_object_list] returns: [False], the probe's count, or the
    list of objects. *)
Inductive ListResult : Type :=
| LFalse
| LCount (n : nat)
| LObjects (l : list ObjectSummary).

(** Truth value, as in [if resp:] and [if not objects:]. *)
Definition truthy (r : ListResult) : bool :=
  match r with
  | LFalse => false
  | LCount n => negb (n =? 0)
  | LObjects l => negb (length l =? 0)
  end.

(** [resp > 1] *)
Definition gt_one (r : ListResult) : M bool :=
  match r with
  | LFalse => ret false
  | LCount n => ret (1 <? n)
  | LObjects _ => raise TypeError
  end.

(** The iteration [for obj in objects]: only a list can be iterated. *)
Definition iterate (r : ListResult) : M (list ObjectSummary) :=
  match r with
  | LObjects l => ret l
  | _ => raise TypeError
  end.

(** [name if name.endswith('/') else name + '/'] *)
Definition with_slash (name : string) : string :=
  if endswith name "/" then name else name +:+ "/".

(** How the [while True] of [get_object_list] is left. *)
Inductive LoopExit : Type :=
| Return (r : ListResult)
| Break (folder_name : option string) (object_list : list ObjectSummary).

Module Bucket.

Definition check_credentials : M bool :=
  try_except
    (Client.list_buckets ;;
     print (Text "Credentials are valid") ;;
     ret true)
    (λ e,
       match e with
       | BotoCoreError name =>
           if String.eqb name "NoCredentialsError"
           then print (Text "Credentials not available.")
           else print (Text "An unexpected error occurred: ")
       | ClientError code =>
           if String.eqb code "InvalidAccessKeyId"
           then print (Text "The access key ID you provided does not exist in our records.")
           else if String.eqb code "SignatureDoesNotMatch"
           then print (Text "The request signature we calculated does not match the signature you provided.")
           else print (Text "An error occurred: ")
       | _ => print (Text "An unexpected error occurred: ")
       end ;;
       ret false).

Definition get_file_metadata (file_name : string) : M (option Metadata) :=
  try_except
    (response <- Client.head_object file_name ;;
     last_modified <- change_timezone (LastModified response) "Asia/Kolkata" ;;
     let response :=
       {| LastModified := last_modified;
          ContentLength := ContentLength response;
          ContentType := ContentType response;
          ETag := ETag response |} in
     ret (Some response))
    (λ e,
       code <- error_code e ;;
       (if String.eqb code "404"
        then print (Text "Object / File_name specified not found")
        else print (Text "Cannot get object details : ")) ;;
       ret None).

Definition upload_file (file_path : string) (file_name : option string)
    (replace : bool) : M bool :=
  resolved <-
    try_except
      (let file_name := match file_name with
                        | None => basename file_path
                        | Some name => name
                        end in
       size <- os_path_getsize file_path ;;
       print (Text "File name / File Size") ;;
       ret (Some file_name))
      (λ e, match e with
            | FileNotFoundError =>
                print (Text "File cannot be found on the given location") ;;
                ret None
            | _ => raise e
            end) ;;
  match resolved with
  | None => ret false
  | Some file_name =>
      let transfer :=
        try_except
          (Client.upload_file file_path file_name
                            (ProgressPercentage file_path) ;;
           print (Text "File uploaded....") ;;
           ret true)
          (λ e, print (Text "File cannot be uplaoded") ;; ret false) in
      found <- get_file_metadata file_name ;;
      match found with
      | Some _ =>
          print (Text "A file with the same file_name already exists") ;;
          if negb replace then ret false else transfer
      | None => transfer
      end
  end.

Fixpoint list_pages (fuel : nat) (folder_name : option string)
    (check_folder : bool) (object_list : list ObjectSummary)
    (continuation_token : option Token) : M LoopExit :=
  match fuel with
  | 0 => λ w, (OutOfFuel, w)
  | S fuel' =>
      let folder_name :=
        match folder_name with
        | Some f => if truthy_str f then Some (with_slash f) else folder_name
        | None => None
        end in
      let prefix :=
        match folder_name with
        | Some f => if truthy_str f then Some f else None
        | None => None
        end in
      let max_keys := if check_folder then Some 2 else None in
      response <- Client.list_objects_v2 prefix continuation_token max_keys ;;
      if check_folder then
        match Contents response with
        | Some contents =>
            print (Text "The folder is present in the bucket") ;;
            ret (Return (LCount (length contents)))
        | None =>
            print (Text "The folder is not present in the bucket") ;;
            ret (Return LFalse)
        end
      else
        let paginate (object_list : list ObjectSummary) :=
          if IsTruncated response then
            print (Text "Continuation Token Present...") ;;
            list_pages fuel' folder_name check_folder object_list
                       (NextContinuationToken response)
          else ret (Break folder_name object_list) in
        match Contents response with
        | Some contents => paginate (object_list ++ contents)
        | None =>
            if length object_list =? 0 then
              print (Text "No such folder found in the bucket.... ") ;;
              ret (Return LFalse)
            else paginate object_list
        end
  end.

(** [object_list[0]["Key"] == folder_name] *)
Definition is_sentinel (first : ObjectSummary) (folder_name : option string)
  : bool :=
  match folder_name with
  | Some f => String.eqb (Key first) f
  | None => false
  end.

Definition get_object_list (fuel : nat) (folder_name : option string)
    (check_folder : bool) : M ListResult :=
  try_except
    (exit <- list_pages fuel folder_name check_folder [] None ;;
     match exit with
     | Return r => ret r
     | Break folder_name object_list =>
         match folder_name with
         | Some f =>
             if truthy_str f then
               match object_list with
               | [] => raise IndexError
               | first :: rest =>
                   if is_sentinel first folder_name then
                     print (TotalFiles (length object_list - 1)) ;;
                     ret (LObjects rest)
                   else
                     print (TotalFiles (length object_list)) ;;
                     ret (LObjects object_list)
               end
             else
               print (TotalFiles (length object_list)) ;;
               ret (LObjects object_list)
         | None =>
             print (TotalFiles (length object_list)) ;;
             ret (LObjects object_list)
         end
     end)
    (λ e,
       print (Text "Exception while getting files list in the bucket") ;;
       ret LFalse).

Definition create_folder (fuel : nat) (folder_name : string) (replace : bool)
  : M bool :=
  let folder_name := with_slash folder_name in
  let create :=
    try_except
      (Client.put_object folder_name ;;
       print (Text "Folder created....") ;;
       ret true)
      (λ e, print (Text "Cannot create the folder...") ;; ret false) in
  present <- get_object_list fuel (Some folder_name) true ;;
  if truthy present then
    print (Text "Folder already present, ") ;;
    if negb replace then ret true else create
  else create.

Definition delete_object (fuel : nat) (object_name : string) : M bool :=
  try_except
    (let delete :=
       Client.delete_object object_name ;;
       print (Text "deleted successfully") ;;
       ret true in
     if endswith object_name "/" then
       resp <- get_object_list fuel (Some object_name) true ;;
       if negb (truthy resp) then ret false
       else
         many <- gt_one resp ;;
         if many then
           print (Text "The Folder contains files ... Use Delete folder data and then the folder") ;;
           ret false
         else delete
     else delete)
    (λ e, print (Text "Cannot Delete the File : ") ;; ret false).

Definition move_file (fuel : nat) (old_name new_name : string) : M bool :=
  try_except
    (Client.copy_object old_name new_name ;;
     _ <- delete_object fuel old_name ;;
     print (Text "is successfully moved to") ;;
     ret true)
    (λ e,
       code <- error_code e ;;
       (if String.eqb code "NoSuchKey"
        then print (Text "File name specified does not exists")
        else ret tt) ;;
       print (Text "Cannot rename the File : ") ;;
       ret false).

Definition get_file_link (file_name : string) (expiration : nat)
  : M (option Url) :=
  try_except
    (found <- get_file_metadata file_name ;;
     match found with
     | None => raise (Exception "File does not exists")
     | Some _ =>
         response <- Client.generate_presigned_url file_name expiration ;;
         ret (Some response)
     end)
    (λ e, print (Text "Cannot get the URl for the file.... ") ;; ret None).

Definition delete_folder_data (fuel : nat) (folder_name : string) : M bool :=
  try_except
    (let folder_name := with_slash folder_name in
     objects <- get_object_list fuel (Some folder_name) false ;;
     if negb (truthy objects) then
       print (Text "Either the Folder is empty or does not exists") ;;
       ret false
     else
       objs <- iterate objects ;;
       let objects_to_delete := Key <$> objs in
       Client.delete_objects objects_to_delete ;;
       print (Text "Folder and its contents have been deleted.") ;;
       ret true)
    (λ e, print (Text "Cannot delete files inside the Folder : ") ;; ret false).

(** The result is [Some false] for [return False] and [None] for Python's
    [None], which a call returns when it runs off the end of the body. *)
Definition move_folder (fuel : nat) (old_name new_name : string)
  : M (option bool) :=
  let old_name := with_slash old_name in
  let new_name := with_slash new_name in
  try_except
    (created <- create_folder fuel new_name false ;;
     (if negb created then raise (Exception "New folder cannot be created")
      else ret tt) ;;
     objects <- get_object_list fuel (Some old_name) false ;;
     objs <- iterate objects ;;
     for_each objs (λ obj,
       let old_key := Key obj in
       let new_key := replace_first old_key old_name new_name in
       _ <- move_file fuel old_key new_key ;;
       ret tt) ;;
     deleted <- delete_object fuel old_name ;;
     (if negb deleted then raise (Exception "Cannot delete the old folder")
      else ret tt) ;;
     ret None)
    (λ e, print (Text "Cannot move folder : ") ;; ret (Some false)).

End Bucket.

(** ** The vocabulary of the statements *)

Definition is_mutation (r : Request) : bool :=
  match r with
  | ReqPut _ | ReqCopy _ _ | ReqDelete _ | ReqDeleteBatch _ | ReqUpload _ _ => true
  | ReqListBuckets | ReqHead _ | ReqList _ _ _ | ReqPresign _ _ => false
  end.

(** The requests of a log that change the bucket, in order. *)
Definition mutations (rs : list Request) : list Request :=
  filter (λ r, is_mutation r = true) rs.

(** [w'] differs from [w] in what was read and printed only. *)
Record unchanged (w w' : World) : Prop := mkUnchanged {
  same_objects : objects w' = objects w;
  same_page_cap : page_cap w' = page_cap w;
  same_now : now w' = now w;
  same_disk : disk w' = disk w;
  same_faults : faults w' = faults w;
  same_mutations : mutations (requests w') = mutations (requests w)
}.

(** [folder_name] as the loop leaves it. *)
Definition normalized (folder_name : option string) : option string :=
  match folder_name with
  | Some f => if truthy_str f then Some (with_slash f) else folder_name
  | None => None
  end.

(** The [Prefix] request parameter. *)
Definition prefix_param (folder_name : option string) : option string :=
  match normalized folder_name with
  | Some f => if truthy_str f then Some f else None
  | None => None
  end.

(** Every object the store holds under the folder, in the store's order. *)
Definition all_under (folder_name : option string) (m : gmap string Object)
  : list ObjectSummary :=
  Client.listing (default EmptyString (prefix_param folder_name)) m.

(** The continuation markers of the requests that the loop sends, from the
    request with [token] on, for a listing of [total] keys in pages of [cap]:
    a further request follows while the store reports more keys. *)
Fixpoint page_tokens (fuel cap total : nat) (token : option Token)
  : list (option Token) :=
  match fuel with
  | 0 => []
  | S fuel' =>
      token ::
      (if bool_decide (Client.position token + cap < total)
       then page_tokens fuel' cap total (Some (NextAt (Client.position token + cap)))
       else [])
  end.

(** The list requests of a whole listing of the folder. *)
Definition page_requests (fuel : nat) (folder_name : option string)
    (token : option Token) (w : World) : list Request :=
  (λ t, ReqList (prefix_param folder_name) t None) <$>
  page_tokens fuel (page_cap w) (length (all_under folder_name (objects w))) token.

(** The content of a folder: every object under it but the folder's own
    key.  Without a folder name it is the whole bucket. *)
Definition contents (folder_name : option string) (m : gmap string Object)
  : list ObjectSummary :=
  match prefix_param folder_name with
  | Some f => filter (λ s, Key s ≠ f) (all_under folder_name m)
  | None => all_under folder_name m
  end.

(** [k] lies in the folder and is not the folder's own key. *)
Definition inside (folder_name : option string) (k : string) : Prop :=
  match prefix_param folder_name with
  | Some f => String.prefix f k = true ∧ k ≠ f
  | None => True
  end.

Global Instance inside_dec (folder_name : option string) (k : string) :
  Decision (inside folder_name k).
Proof. unfold inside. destruct (prefix_param folder_name); apply _. Defined.

(** The objects of the bucket that lie inside a folder. *)
Definition objects_inside (folder_name : option string)
    (m : gmap string Object) : gmap string Object :=
  filter (λ kv, inside folder_name kv.1) m.

(** What the probe answers when the store serves its request: the number of
    keys on a page capped at two, or [False] when the page is empty. *)
Definition probe_answer (folder_name : option string) (w : World) : ListResult :=
  match take (2 `min` page_cap w) (all_under folder_name (objects w)) with
  | [] => LFalse
  | page => LCount (length page)
  end.

(** The message with which [delete_object] refuses a folder that has
    content. *)
Definition guidance : Printed :=
  Text "The Folder contains files ... Use Delete folder data and then the folder".

(** The metadata probe of [get_file_link] succeeded. *)
Definition found (file_name : string) (w : World) : bool :=
  match (Bucket.get_file_metadata file_name w).1 with
  | Ret (Some _) => true
  | _ => false
  end.

(** ** Example worlds *)

Module Examples.

Definition epoch : datetime := {| utc_seconds := 0; utc_offset := 0 |}.

Definition file (body : string) : Object :=
  {| Body := body; ObjContentType := "text/plain"; ObjLastModified := epoch |}.

(** The zone of Kolkata in the time zone database: Indian Standard Time
    (+5:30) since 1906, with two periods at +6:30 between 1941 and 1945,
    and before that the local mean times of Madras and Calcutta, which pytz
    rounds to the minute. *)
Definition kolkata : tzinfo :=
  λ t, (if t <? -3155694800 then 21180
        else if t <? -2019705670 then 19260
        else if t <? -891581400 then 19800
        else if t <? -872058600 then 23400
        else if t <? -862637400 then 19800
        else if t <? -764145000 then 23400
        else 19800)%Z.

Definition zones : gmap string tzinfo :=
  {[ "Asia/Kolkata" := kolkata; "UTC" := λ _, 0%Z ]}.

(** A world with the given objects and local files, no request issued. *)
Definition world (entries : list (string * string)) (cap : nat)
    (local : list (string * string)) (fs : list (option exn)) : World :=
  {| objects := list_to_map (prod_map id file <$> entries);
     page_cap := cap; now := epoch; disk := list_to_map local;
     os_errors := ∅; tzdata := zones;
     faults := fs; requests := []; stdout := [] |}.

(** Folder ["a/"] with its sentinel and three files, next to a file
    outside of it; two keys per page. *)
Definition paged : World :=
  world [("a/", EmptyString); ("a/x", "1"); ("a/y", "2"); ("a/z", "3");
         ("b", "4")] 2 [] [].

(** Folder ["a/"] with its sentinel and two files. *)
Definition with_sentinel : World :=
  world [("a/", EmptyString); ("a/x", "1"); ("a/y", "2")] 1000 [] [].

(** A folder that exists only as the prefix of one file. *)
Definition implicit_folder : World :=
  world [("f/file", "1")] 1000 [] [].

(** An empty folder: the sentinel alone. *)
Definition empty_folder : World :=
  world [("f/", EmptyString)] 1000 [] [].

Definition folder_with_file : World :=
  world [("f/", EmptyString); ("f/file", "1")] 1000 [] [].

(** The local file ["/tmp/k"], and the answer of the operating system for
    a path below it. *)
Definition below_a_file : World :=
  {| objects := ∅; page_cap := 1000; now := epoch;
     disk := {[ "/tmp/k" := "1" ]};
     os_errors := {[ "/tmp/k/x" := OtherError "NotADirectoryError" ]};
     tzdata := zones; faults := []; requests := []; stdout := [] |}.

Definition keys (w : World) : list string :=
  Key <$> all_under None (objects w).

End Examples.

(** ** The vocabulary of the further properties *)

(** A computation that only reads: whatever the store does, it leaves the
    bucket and the disk as they are and sends no request that changes the
    bucket. *)
Definition quiet {A} (c : M A) : Prop :=
  ∀ w, objects (c w).2 = objects w
       ∧ disk (c w).2 = disk w
       ∧ mutations (requests (c w).2) = mutations (requests w).

(** A computation that writes under the keys [K] only: whatever the store
    does, every other key holds afterwards what it held before. *)
Definition confined {A} (K : string → Prop) (c : M A) : Prop :=
  ∀ w k, ¬ K k → objects (c w).2 !! k = objects w !! k.

(** Every value the computation returns satisfies [Q]. *)
Definition returns {A} (c : M A) (Q : A → Prop) : Prop :=
  ∀ w a, (c w).1 = Ret a → Q a.

(** The errors with which the store has answered between [w] and [w']:
    the errors among the entries of the schedule that were used up. *)
Definition refusals (w w' : World) : list exn :=
  omap id (take (length (faults w) - length (faults w')) (faults w)).

(** A computation that ends with [r] without an answer of the store: the
    bucket and the schedule are as they were. *)
Definition rejected {A} (c : M A) (r : Res A) (w : World) : Prop :=
  (c w).1 = r ∧ objects (c w).2 = objects w ∧ faults (c w).2 = faults w.

(** The object that [copy_object] writes for [o] at time [t]. *)
Definition copied (o : Object) (t : datetime) : Object :=
  {| Body := Body o; ObjContentType := ObjContentType o; ObjLastModified := t |}.

(** * Proofs *)

(** ** Facts about strings *)

Lemma string_length_app (s t : string) :
  String.length (s +:+ t) = String.length s + String.length t.
Proof. induction s as [|a s IH]; simpl; [done | by rewrite IH]. Qed.

Lemma endswith_app_slash (s : string) : endswith (s +:+ "/") "/" = true.
Proof.
  unfold endswith. rewrite string_length_app. simpl String.length.
  rewrite bool_decide_eq_true_2 by lia. simpl andb.
  replace (String.length s + 1 - 1) with (String.length s) by lia.
  induction s as [|a s IH]; [done|]. exact IH.
Qed.

Lemma with_slash_endswith (f : string) : endswith (with_slash f) "/" = true.
Proof.
  unfold with_slash. destruct (endswith f "/") eqn:E; [done|].
  apply endswith_app_slash.
Qed.

Lemma with_slash_idemp (f : string) : with_slash (with_slash f) = with_slash f.
Proof. unfold with_slash at 1. by rewrite with_slash_endswith. Qed.

Lemma with_slash_fixed (f : string) : endswith f "/" = true → with_slash f = f.
Proof. unfold with_slash. by intros ->. Qed.

Lemma endswith_truthy (f : string) : endswith f "/" = true → truthy_str f = true.
Proof. by destruct f. Qed.

Lemma with_slash_truthy (f : string) : truthy_str (with_slash f) = true.
Proof. apply endswith_truthy, with_slash_endswith. Qed.

Lemma truthy_str_true (s : string) : s ≠ EmptyString → truthy_str s = true.
Proof. by destruct s. Qed.

Lemma truthy_str_false (s : string) : truthy_str s = false → s = EmptyString.
Proof. by destruct s. Qed.

Lemma eqb_false (s t : string) : s ≠ t → String.eqb s t = false.
Proof. by intros ?%String.eqb_neq. Qed.

Lemma prefix_le (p k : string) : String.prefix p k = true → String.le p k.
Proof.
  unfold String.le, String.leb. revert k.
  induction p as [|a p IH]; intros [|b k] H; simpl in *; try done.
  destruct (Ascii.ascii_dec a b) as [->|]; [|done].
  assert (Ascii.compare b b = Eq) as ->.
  { unfold Ascii.compare. apply N.compare_refl. }
  by apply IH.
Qed.

Lemma prefix_refl (p : string) : String.prefix p p = true.
Proof.
  induction p as [|a p IH]; simpl; [done|].
  by destruct (Ascii.ascii_dec a a).
Qed.

Lemma prefix_empty (k : string) : String.prefix EmptyString k = true.
Proof. by destruct k. Qed.

(** ** Facts about the store's listing *)

Section listing_facts.
Import Client.

Global Instance key_le_total : Total key_le.
Proof. intros a b. unfold key_le. apply (total String.le). Qed.

Global Instance key_le_trans : Transitive key_le.
Proof. intros a b c. unfold key_le. apply transitivity. Qed.

Lemma elem_of_in_order (m : gmap string Object) (kv : string * Object) :
  kv ∈ in_order m ↔ m !! kv.1 = Some kv.2.
Proof.
  unfold in_order. rewrite merge_sort_Permutation.
  destruct kv. apply elem_of_map_to_list.
Qed.

Lemma in_order_NoDup_keys (m : gmap string Object) : NoDup (in_order m).*1.
Proof.
  unfold in_order. rewrite merge_sort_Permutation.
  apply NoDup_fst_map_to_list.
Qed.

Lemma in_order_sorted (m : gmap string Object) :
  StronglySorted key_le (in_order m).
Proof. apply StronglySorted_merge_sort; apply _. Qed.

Lemma listing_keys (p : string) (m : gmap string Object) :
  Key <$> listing p m
  = (filter (λ kv, String.prefix p kv.1 = true) (in_order m)).*1.
Proof. unfold listing. rewrite <- list_fmap_compose. done. Qed.

Lemma listing_NoDup_keys (p : string) (m : gmap string Object) :
  NoDup (Key <$> listing p m).
Proof.
  rewrite listing_keys.
  eapply sublist_NoDup; [apply in_order_NoDup_keys|].
  apply fmap_sublist, sublist_filter.
Qed.

Lemma listing_NoDup (p : string) (m : gmap string Object) :
  NoDup (listing p m).
Proof. eapply NoDup_fmap_1, listing_NoDup_keys. Qed.

Lemma elem_of_listing (p : string) (m : gmap string Object) (s : ObjectSummary) :
  s ∈ listing p m ↔
  ∃ o, m !! Key s = Some o ∧ s = summary (Key s, o) ∧
       String.prefix p (Key s) = true.
Proof.
  unfold listing. rewrite list_elem_of_fmap. split.
  - intros ([k o] & -> & [Hp Hin]%list_elem_of_filter).
    apply elem_of_in_order in Hin. simpl in *. eauto.
  - intros (o & Hm & Hs & Hp). exists (Key s, o). split; [done|].
    apply list_elem_of_filter. split; [done|]. by apply elem_of_in_order.
Qed.

Lemma elem_of_listing_keys (p : string) (m : gmap string Object) (k : string) :
  k ∈ Key <$> listing p m ↔ is_Some (m !! k) ∧ String.prefix p k = true.
Proof.
  rewrite list_elem_of_fmap. split.
  - intros (s & -> & (o & Hm & _ & Hp)%elem_of_listing). eauto.
  - intros [[o Hm] Hp]. exists (summary (k, o)). split; [done|].
    apply elem_of_listing. exists o. eauto.
Qed.

(** In a sorted list the first element that passes a filter is below
    every other one that does. *)
Lemma head_filter_least {A} (R : relation A) (P : A → Prop)
    `{!∀ x, Decision (P x)} (l : list A) (x : A) :
  StronglySorted R l → x ∈ filter P l →
  ∃ h, head (filter P l) = Some h ∧ (h = x ∨ R h x).
Proof.
  induction 1 as [|y l Hl IH Hall]; [by rewrite filter_nil; inversion 1|].
  rewrite filter_cons. destruct (decide (P y)) as [Hy|Hy].
  - intros [->|Hin%list_elem_of_filter]%elem_of_cons; simpl; eauto.
    exists y. split; [done|]. right.
    rewrite Forall_forall in Hall. apply Hall. by destruct Hin.
  - auto.
Qed.

(** The folder's own key, when present, comes first in its listing. *)
Lemma listing_sentinel_first (p : string) (m : gmap string Object) (o : Object) :
  m !! p = Some o → ∃ rest, listing p m = summary (p, o) :: rest.
Proof.
  intros Hm. unfold listing.
  destruct (head_filter_least key_le (λ kv, String.prefix p kv.1 = true)
              (in_order m) (p, o)) as ([k o'] & Hh & Hle).
  { apply in_order_sorted. }
  { apply list_elem_of_filter. split; [apply prefix_refl|].
    by apply elem_of_in_order. }
  pose proof (head_Some_elem_of _ _ Hh) as [Hp Hin]%list_elem_of_filter.
  apply elem_of_in_order in Hin. simpl in *.
  assert (k = p) as ->.
  { destruct Hle as [[= ]|Hle]; [done|].
    apply (anti_symm String.le); [done|]. by apply prefix_le. }
  assert (o' = o) as -> by congruence.
  destruct (filter _ (in_order m)) as [|? rest]; simplify_eq/=. eauto.
Qed.

Lemma listing_without_sentinel (p : string) (m : gmap string Object)
    (s : ObjectSummary) :
  m !! p = None → s ∈ listing p m → Key s ≠ p.
Proof.
  intros Hm (o & Ho & _)%elem_of_listing E. rewrite E in Ho. congruence.
Qed.

End listing_facts.

(** ** Running the monad *)

Lemma unchanged_refl (w : World) : unchanged w w.
Proof. by split. Qed.

Lemma unchanged_trans (w1 w2 w3 : World) :
  unchanged w1 w2 → unchanged w2 w3 → unchanged w1 w3.
Proof. intros [] []. split; congruence. Qed.

Lemma unchanged_print (p : Printed) (w : World) : unchanged w (log_print p w).
Proof. by split. Qed.

Lemma mutations_read (r : Request) (rs : list Request) :
  is_mutation r = false → mutations (rs ++ [r]) = mutations rs.
Proof.
  intros Hr. unfold mutations.
  rewrite filter_app, filter_cons_False, filter_nil, app_nil_r; [done|].
  by rewrite Hr.
Qed.

Lemma mutations_write (r : Request) (rs : list Request) :
  is_mutation r = true → mutations (rs ++ [r]) = mutations rs ++ [r].
Proof.
  intros Hr. unfold mutations.
  by rewrite filter_app, filter_cons_True, filter_nil.
Qed.

Lemma unchanged_read (r : Request) (w : World) :
  is_mutation r = false → unchanged w (log_request r w).
Proof. intros Hr. split; try done. by apply mutations_read. Qed.

Lemma bind_Ret {A B} (c : M A) (k : A → M B) (w w' : World) (a : A) :
  c w = (Ret a, w') → bind c k w = k a w'.
Proof. unfold bind. by intros ->. Qed.

Lemma bind_Raise {A B} (c : M A) (k : A → M B) (w w' : World) (e : exn) :
  c w = (Raise e, w') → bind c k w = (Raise e, w').
Proof. unfold bind. by intros ->. Qed.

Lemma try_Ret {A} (c : M A) (h : exn → M A) (w w' : World) (a : A) :
  c w = (Ret a, w') → try_except c h w = (Ret a, w').
Proof. unfold try_except. by intros ->. Qed.

Lemma try_Raise {A} (c : M A) (h : exn → M A) (w w' : World) (e : exn) :
  c w = (Raise e, w') → try_except c h w = h e w'.
Proof. unfold try_except. by intros ->. Qed.

Lemma call_reliable {A} (r : Request) (serve : M A) (w : World) :
  Client.valid r = true → faults w = [] →
  Client.call r serve w = serve (log_request r w).
Proof. unfold Client.call. simpl. by intros -> ->. Qed.

Lemma list_objects_v2_reliable (prefix : option string) (token : option Token)
    (max_keys : option nat) (w : World) :
  faults w = [] →
  Client.list_objects_v2 prefix token max_keys w =
    (Ret (Client.page_of (Client.listing (default EmptyString prefix) (objects w))
                         (Client.position token) (Client.page_size max_keys w)),
     log_request (ReqList prefix token max_keys) w).
Proof. intros Hf. unfold Client.list_objects_v2. by rewrite call_reliable. Qed.

(** ** The metadata probe *)

(** [change_timezone] always returns, with the instant it was given; it
    prints a line when the conversion fails and does nothing else. *)
Lemma change_timezone_spec (date_ : datetime) (timezone : string) (w : World) :
  ∃ d w',
    change_timezone date_ timezone w = (Ret d, w')
    ∧ utc_seconds d = utc_seconds date_
    ∧ (w' = w ∨ w' = log_print (Text "Cannot convert t loacl time zone: ") w).
Proof.
  unfold change_timezone, try_except, bind, pytz_timezone, astimezone.
  destruct (tzdata w !! timezone) as [tz|]; simpl.
  - destruct (bool_decide _); simpl; eexists _, _;
      (split; [reflexivity|]); (split; [done|]); auto.
  - eexists _, _. split; [reflexivity|]. split; [done|]. auto.
Qed.

(** The probe for a key that is there, when the store serves it. *)
Lemma get_file_metadata_present (file_name : string) (w : World) (o : Object) :
  file_name ≠ EmptyString → (∀ e fs, faults w ≠ Some e :: fs) →
  objects w !! file_name = Some o →
  ∃ d w',
    Bucket.get_file_metadata file_name w
    = (Ret (Some {| LastModified := d;
                    ContentLength := String.length (Body o);
                    ContentType := ObjContentType o;
                    ETag := etag_of (Body o) |}), w')
    ∧ utc_seconds d = utc_seconds (ObjLastModified o)
    ∧ objects w' = objects w ∧ page_cap w' = page_cap w ∧ now w' = now w
    ∧ disk w' = disk w ∧ faults w' = tail (faults w)
    ∧ requests w' = requests w ++ [ReqHead file_name].
Proof.
  intros Hk%truthy_str_true Hserved Ho.
  unfold Bucket.get_file_metadata, try_except, bind, Client.head_object,
    Client.call.
  simpl. rewrite Hk.
  destruct (faults w) as [|[e|] fs] eqn:Hfs; [|by destruct (Hserved e fs)|];
    simpl; rewrite Ho.
  - destruct (change_timezone_spec (LastModified (Client.metadata_of o))
                "Asia/Kolkata" (log_request (ReqHead file_name) w))
      as (d & w' & -> & Hd & [-> | ->]); simpl; eexists _, _;
      (split; [reflexivity|]); by rewrite ?Hfs.
  - destruct (change_timezone_spec (LastModified (Client.metadata_of o))
                "Asia/Kolkata"
                (set_faults fs (log_request (ReqHead file_name) w)))
      as (d & w' & -> & Hd & [-> | ->]); simpl; eexists _, _;
      (split; [reflexivity|]); done.
Qed.

(** The probe for a key that is not there, when the store serves it. *)
Lemma get_file_metadata_absent (file_name : string) (w : World) :
  file_name ≠ EmptyString → (∀ e fs, faults w ≠ Some e :: fs) →
  objects w !! file_name = None →
  ∃ w',
    Bucket.get_file_metadata file_name w = (Ret None, w')
    ∧ objects w' = objects w ∧ page_cap w' = page_cap w ∧ now w' = now w
    ∧ disk w' = disk w ∧ faults w' = tail (faults w)
    ∧ requests w' = requests w ++ [ReqHead file_name].
Proof.
  intros Hk%truthy_str_true Hserved Ho.
  unfold Bucket.get_file_metadata, try_except, bind, Client.head_object,
    Client.call.
  simpl. rewrite Hk.
  destruct (faults w) as [|[e|] fs] eqn:Hfs; [|by destruct (Hserved e fs)|];
    simpl; rewrite Ho; simpl; eexists; (split; [reflexivity|]);
    by rewrite ?Hfs.
Qed.

(** The probe for the empty key: the client rejects the call and the
    handler, which reads [e.response], raises [AttributeError]. *)
Lemma get_file_metadata_empty (w : World) :
  Bucket.get_file_metadata EmptyString w
  = (Raise AttributeError, log_request (ReqHead EmptyString) w).
Proof. done. Qed.

(** The probe that the store refuses. *)
Lemma get_file_metadata_refused (file_name : string) (w : World) (e : exn)
    (fs : list (option exn)) :
  file_name ≠ EmptyString → faults w = Some e :: fs →
  ∃ w',
    Bucket.get_file_metadata file_name w
    = (match e with ClientError _ => Ret None | _ => Raise AttributeError end,
       w')
    ∧ objects w' = objects w ∧ page_cap w' = page_cap w ∧ now w' = now w
    ∧ disk w' = disk w ∧ faults w' = fs
    ∧ requests w' = requests w ++ [ReqHead file_name].
Proof.
  intros Hk%truthy_str_true Hf.
  unfold Bucket.get_file_metadata, try_except, bind, Client.head_object,
    Client.call.
  simpl. rewrite Hk, Hf.
  destruct e as [code| | | | | | |]; simpl;
    try destruct (String.eqb code "404"); simpl;
    eexists; (split; [reflexivity|]); done.
Qed.

(** ** The pagination loop on a reliable store *)

Lemma normalized_idemp (folder_name : option string) :
  normalized (normalized folder_name) = normalized folder_name.
Proof.
  destruct folder_name as [f|]; [|done]. simpl.
  destruct (truthy_str f) eqn:E; simpl; [|by rewrite E].
  by rewrite with_slash_truthy, with_slash_idemp.
Qed.

Lemma prefix_param_normalized (folder_name : option string) :
  prefix_param (normalized folder_name) = prefix_param folder_name.
Proof. unfold prefix_param. by rewrite normalized_idemp. Qed.

Lemma list_pages_reliable (fuel : nat) :
  ∀ (folder_name : option string) (acc : list ObjectSummary)
    (token : option Token) (w : World),
    faults w = [] → 0 < page_cap w →
    length (all_under folder_name (objects w)) - Client.position token < fuel →
    ∃ w',
      Bucket.list_pages fuel folder_name false acc token w =
        (Ret (match acc ++ drop (Client.position token)
                                (all_under folder_name (objects w)) with
              | [] => Return LFalse
              | l => Break (normalized folder_name) l
              end), w')
      ∧ unchanged w w'
      ∧ requests w' = requests w ++ page_requests fuel folder_name token w.
Proof.
  induction fuel as [|fuel IH]; intros folder_name acc token w Hf Hcap Hfuel;
    [lia|].
  cbn [Bucket.list_pages].
  fold (normalized folder_name). fold (prefix_param folder_name).
  erewrite bind_Ret by (by apply list_objects_v2_reliable).
  fold (all_under folder_name (objects w)).
  unfold page_requests. cbn [page_tokens].
  set (L := all_under folder_name (objects w)) in *.
  set (start := Client.position token) in *.
  set (w1 := log_request _ w).
  unfold Client.page_of, Client.page_size. cbn [Contents IsTruncated NextContinuationToken].
  set (n := page_cap w) in *.
  assert (Hw1 : unchanged w w1) by by apply unchanged_read.
  destruct (bool_decide_reflect (start + n < length L)) as [Hmore|Hlast].
  - (* a further page follows *)
    assert (Hpage : take n (drop start L) ≠ []).
    { intros E%(f_equal length). rewrite length_take, length_drop in E.
      simpl in E. lia. }
    set (w2 := log_print (Text "Continuation Token Present...") w1).
    destruct (IH (normalized folder_name) (acc ++ take n (drop start L))
                (Some (NextAt (start + n))) w2) as (w' & Hrun & Hw' & Hreq);
      [done|done|..].
    { unfold all_under. rewrite prefix_param_normalized.
      change (length L - (start + n) < fuel). lia. }
    exists w'. split; [|split].
    + revert Hrun. unfold all_under.
      rewrite prefix_param_normalized, normalized_idemp.
      change (Client.listing _ (objects w2)) with L.
      cbn [Client.position].
      rewrite <- (assoc_L (++)), <- (drop_drop L n start), take_drop.
      intros Hrun.
      destruct (take n (drop start L)) as [|x page] eqn:Epage; [done|].
      rewrite <- Epage in *. by rewrite (bind_Ret _ _ w1 w2 tt).
    + by eapply unchanged_trans, Hw'; eapply unchanged_trans, unchanged_print.
    + rewrite Hreq. unfold page_requests, all_under.
      rewrite prefix_param_normalized.
      change (Client.listing _ (objects w2)) with L.
      change (page_cap w2) with n. simpl. by rewrite <- (assoc_L (++)).
  - (* this page is the last one *)
    rewrite take_ge by (rewrite length_drop; lia).
    destruct (drop start L) as [|x page] eqn:Edrop.
    + rewrite app_nil_r. destruct acc as [|a acc]; simpl.
      * eexists. split; [done|].
        split; [by eapply unchanged_trans, unchanged_print|done].
      * eauto.
    + eexists. split; [|done]. by destruct acc.
Qed.

(** ** What a listing returns *)

Lemma filter_all {A} (P : A → Prop) `{!∀ x, Decision (P x)} (l : list A) :
  Forall P l → filter P l = l.
Proof.
  induction 1 as [|x l Hx _ IH]; [done|].
  by rewrite filter_cons_True, IH.
Qed.

(** Dropping a leading sentinel, as the code does, leaves the content. *)
Lemma strip_sentinel (p : string) (m : gmap string Object)
    (first : ObjectSummary) (rest : list ObjectSummary) :
  Client.listing p m = first :: rest →
  (if String.eqb (Key first) p then rest else first :: rest)
  = filter (λ s, Key s ≠ p) (Client.listing p m).
Proof.
  intros E. pose proof (listing_NoDup_keys p m) as Hnd.
  rewrite E in *. rewrite fmap_cons in Hnd.
  apply NoDup_cons in Hnd as [Hfirst _].
  destruct (String.eqb_spec (Key first) p) as [Hk|Hk].
  - rewrite filter_cons_False by (intros ?; done).
    symmetry. apply filter_all, Forall_forall. intros s Hs Es.
    apply Hfirst, list_elem_of_fmap. exists s. split; [congruence|done].
  - symmetry. apply filter_all, Forall_forall. intros s Hs Es.
    assert (Hin : s ∈ Client.listing p m) by by rewrite E.
    apply elem_of_listing in Hin as (o & Ho & _). rewrite Es in Ho.
    destruct (listing_sentinel_first p m o Ho) as [rest' E'].
    rewrite E in E'. by simplify_eq.
Qed.

Lemma all_under_length (folder_name : option string) (m : gmap string Object) :
  length (all_under folder_name m) ≤ S (length (contents folder_name m)).
Proof.
  unfold contents, all_under.
  destruct (prefix_param folder_name) as [f|]; simpl; [|lia].
  destruct (Client.listing f m) as [|first rest] eqn:E; [simpl; lia|].
  rewrite <- E, <- (strip_sentinel f m first rest E).
  rewrite E. destruct (String.eqb _ _); simpl; lia.
Qed.

Lemma elem_of_contents_keys (folder_name : option string)
    (m : gmap string Object) (k : string) :
  k ∈ Key <$> contents folder_name m ↔ is_Some (m !! k) ∧ inside folder_name k.
Proof.
  unfold contents, inside, all_under.
  destruct (prefix_param folder_name) as [f|]; simpl.
  - rewrite list_elem_of_fmap. split.
    + intros (s & -> & [Hne Hin]%list_elem_of_filter).
      assert (Hk : Key s ∈ Key <$> Client.listing f m).
      { apply list_elem_of_fmap. eauto. }
      apply elem_of_listing_keys in Hk as [Hm Hp]. done.
    + intros (Hm & Hp & Hne).
      assert (Hk : k ∈ Key <$> Client.listing f m).
      { by apply elem_of_listing_keys. }
      apply list_elem_of_fmap in Hk as (s & -> & Hs). exists s.
      split; [done|]. by apply list_elem_of_filter.
  - rewrite elem_of_listing_keys, prefix_empty. tauto.
Qed.

Lemma contents_NoDup_keys (folder_name : option string) (m : gmap string Object) :
  NoDup (Key <$> contents folder_name m).
Proof.
  unfold contents, all_under.
  destruct (prefix_param folder_name) as [f|]; simpl;
    [|apply listing_NoDup_keys].
  eapply sublist_NoDup; [apply (listing_NoDup_keys f m)|].
  apply fmap_sublist, sublist_filter.
Qed.

(** The keys under a folder are not empty. *)
Lemma prefix_truthy (p k : string) :
  String.prefix p k = true → truthy_str p = true → truthy_str k = true.
Proof. by destruct p, k. Qed.

(** The listing mode of [get_object_list] on a reliable store: with enough
    fuel for the pages, it returns the content of the folder, whatever the
    page size. *)
Lemma get_object_list_reliable (fuel : nat) (folder_name : option string)
    (w : World) :
  faults w = [] → 0 < page_cap w →
  length (all_under folder_name (objects w)) < fuel →
  ∃ w',
    Bucket.get_object_list fuel folder_name false w =
      (Ret (match all_under folder_name (objects w) with
            | [] => LFalse
            | _ => LObjects (contents folder_name (objects w))
            end), w')
    ∧ unchanged w w'
    ∧ requests w' = requests w ++ page_requests fuel folder_name None w
    ∧ (all_under folder_name (objects w) ≠ [] →
       last (stdout w') =
         Some (TotalFiles (length (contents folder_name (objects w))))).
Proof.
  intros Hf Hcap Hfuel.
  destruct (list_pages_reliable fuel folder_name [] None w)
    as (w1 & Hrun & Hw1 & Hreq); [done|done|simpl; lia|].
  simpl in Hrun. rewrite drop_0 in Hrun.
  unfold contents.
  destruct (all_under folder_name (objects w)) as [|first rest] eqn:EL.
  { exists w1. split; [|done]. unfold Bucket.get_object_list.
    apply try_Ret. by rewrite (bind_Ret _ _ w w1 (Return LFalse)). }
  unfold Bucket.get_object_list.
  unfold all_under in EL.
  unfold try_except, bind. rewrite Hrun. unfold prefix_param in *.
  destruct (normalized folder_name) as [f|];
    [destruct (truthy_str f) eqn:Ef|]; simpl in EL |- *.
  - pose proof (strip_sentinel f _ first rest EL) as Hs.
    rewrite EL in Hs. rewrite <- Hs.
    destruct (String.eqb (Key first) f); simpl; eexists;
      (split; [reflexivity|]);
      (split; [by eapply unchanged_trans, unchanged_print|]);
      (split; [done|]);
      intros _; simpl; rewrite last_snoc; repeat f_equal; lia.
  - eexists. split; [reflexivity|].
    split; [by eapply unchanged_trans, unchanged_print|]. split; [done|].
    intros _. simpl. by rewrite last_snoc.
  - eexists. split; [reflexivity|].
    split; [by eapply unchanged_trans, unchanged_print|]. split; [done|].
    intros _. simpl. by rewrite last_snoc.
Qed.

Lemma contents_length (folder_name : option string) (m : gmap string Object) :
  length (contents folder_name m) = size (objects_inside folder_name m).
Proof.
  rewrite <- length_map_to_list, <- (length_fmap fst (map_to_list _)).
  rewrite <- (length_fmap Key). apply Permutation_length, NoDup_Permutation.
  - apply contents_NoDup_keys.
  - apply NoDup_fst_map_to_list.
  - intros k. rewrite elem_of_contents_keys, list_elem_of_fmap.
    unfold objects_inside. split.
    + intros [[o Ho] Hin]. exists (k, o). split; [done|].
      apply elem_of_map_to_list, map_lookup_filter_Some. done.
    + intros ([k' o] & -> & [Ho Hin]%elem_of_map_to_list%map_lookup_filter_Some).
      simpl in *. eauto.
Qed.

(** ** C1: pagination *)

Lemma contents_le_all_under (folder_name : option string)
    (m : gmap string Object) :
  length (contents folder_name m) ≤ length (all_under folder_name m).
Proof.
  unfold contents. destruct (prefix_param folder_name); [|done].
  apply length_filter.
Qed.

(** C1. On a reliable store whose pages hold at least one key, listing a
    folder that contains [N] objects, [N] larger than a page, returns
    exactly those [N] objects: no key twice, none missing, whatever the page
    size.  The objects a folder contains are those under its prefix other
    than the folder's own sentinel key.  The requests sent are the list
    requests of [page_requests], each but the first with the continuation
    marker of the response before it, and there are several of them.  The
    loop needs fuel for its pages; [N + 2] iterations always suffice. *)
Theorem get_object_list_pagination (fuel : nat) (folder_name : option string)
    (w : World) (N : nat) :
  faults w = [] →
  N = size (objects_inside folder_name (objects w)) →
  0 < page_cap w → page_cap w < N → N + 1 < fuel →
  ∃ l w',
    Bucket.get_object_list fuel folder_name false w = (Ret (LObjects l), w')
    ∧ length l = N
    ∧ NoDup (Key <$> l)
    ∧ (∀ k, k ∈ Key <$> l ↔
            is_Some (objects w !! k) ∧ inside folder_name k)
    ∧ l = contents folder_name (objects w)
    ∧ objects w' = objects w
    ∧ requests w' = requests w ++ page_requests fuel folder_name None w
    ∧ 1 < length (page_requests fuel folder_name None w).
Proof.
  intros Hf -> Hcap HN Hfuel. rewrite <- contents_length in *.
  pose proof (all_under_length folder_name (objects w)) as Hlen.
  pose proof (contents_le_all_under folder_name (objects w)) as Hle.
  destruct (get_object_list_reliable fuel folder_name w)
    as (w' & Hrun & Hw' & Hreq & _); [done|done|lia|].
  exists (contents folder_name (objects w)), w'.
  split.
  - rewrite Hrun.
    destruct (all_under folder_name (objects w)) as [|first rest] eqn:E; [|done].
    exfalso. unfold contents in HN. rewrite E in HN.
    destruct (prefix_param folder_name); simpl in HN; lia.
  - split; [done|]. split; [apply contents_NoDup_keys|].
    split; [apply elem_of_contents_keys|]. split; [done|].
    split; [apply Hw'|]. split; [done|].
    unfold page_requests. rewrite length_fmap.
    destruct fuel as [|[|fuel]]; [lia..|]. cbn [page_tokens Client.position].
    rewrite bool_decide_eq_true_2 by lia. simpl. lia.
Qed.

Lemma get_object_list_pagination_witness :
  ∃ l w',
    Bucket.get_object_list 5 (Some "a") false Examples.paged
      = (Ret (LObjects l), w')
    ∧ length l = 3
    ∧ NoDup (Key <$> l)
    ∧ (∀ k, k ∈ Key <$> l ↔
            is_Some (objects Examples.paged !! k) ∧ inside (Some "a") k)
    ∧ l = contents (Some "a") (objects Examples.paged)
    ∧ objects w' = objects Examples.paged
    ∧ requests w' =
        requests Examples.paged ++ page_requests 5 (Some "a") None Examples.paged
    ∧ 1 < length (page_requests 5 (Some "a") None Examples.paged).
Proof.
  apply (get_object_list_pagination 5 (Some "a") Examples.paged 3);
    [reflexivity | vm_compute; reflexivity | vm_compute; lia ..].
Defined.

(** ** The probe mode *)

(** The probe issues one request.  When that request fails the probe
    answers [False]. *)
Lemma probe_spec (fuel : nat) (folder_name : option string) (w : World) :
  0 < fuel →
  ∃ w',
    Bucket.get_object_list fuel folder_name true w =
      (Ret (match faults w with
            | Some _ :: _ => LFalse
            | _ => probe_answer folder_name w
            end), w')
    ∧ objects w' = objects w ∧ page_cap w' = page_cap w
    ∧ now w' = now w ∧ disk w' = disk w
    ∧ faults w' = tail (faults w)
    ∧ requests w' =
        requests w ++ [ReqList (prefix_param folder_name) None (Some 2)].
Proof.
  destruct fuel as [|fuel]; [lia|]. intros _.
  unfold Bucket.get_object_list, probe_answer, all_under.
  cbn [Bucket.list_pages].
  fold (normalized folder_name). fold (prefix_param folder_name).
  unfold try_except, bind, Client.list_objects_v2, Client.call.
  cbn [faults log_request Client.valid].
  destruct (faults w) as [|[e|] fs] eqn:Hfs; cbn [Client.page_of Contents Client.position
    Client.page_size drop objects set_faults log_request page_cap].
  - destruct (take _ _); eexists; (split; [reflexivity|by simpl; rewrite Hfs]).
  - eexists; (split; [reflexivity|done]).
  - destruct (take _ _); eexists; (split; [reflexivity|done]).
Qed.

Lemma probe_reliable (fuel : nat) (folder_name : option string) (w : World) :
  0 < fuel → faults w = [] →
  ∃ w',
    Bucket.get_object_list fuel folder_name true w
      = (Ret (probe_answer folder_name w), w')
    ∧ unchanged w w'.
Proof.
  intros Hfuel Hf.
  destruct (probe_spec fuel folder_name w Hfuel)
    as (w' & Hrun & Ho & Hc & Hn & Hd & Hfs & Hr).
  rewrite Hf in Hrun, Hfs. exists w'. split; [done|].
  split; try done; [by rewrite Hf|].
  rewrite Hr. by apply mutations_read.
Qed.

Lemma prefix_param_Some (f : string) :
  truthy_str f = true → prefix_param (Some f) = Some (with_slash f).
Proof.
  intros Hf. unfold prefix_param. simpl. by rewrite Hf, with_slash_truthy.
Qed.

Lemma contents_valid (f : string) (m : gmap string Object) :
  truthy_str f = true →
  forallb truthy_str (Key <$> contents (Some f) m) = true.
Proof.
  intros Hf. apply forallb_forall. intros k Hk%list_elem_of_In.
  apply elem_of_contents_keys in Hk as [_ Hin]. unfold inside in Hin.
  rewrite prefix_param_Some in Hin by done. destruct Hin as [Hp _].
  eapply prefix_truthy; [done|apply with_slash_truthy].
Qed.

(** ** C2: the folder's sentinel in a listing *)

(** C2, the claim as stated fails in probe mode: on a folder that holds its
    sentinel and nothing else, the first (and only) key returned is the
    prefix itself, and the probe reports the count 1, the sentinel
    included. *)
Lemma probe_counts_the_sentinel :
  Key <$> all_under (Some "f/") (objects Examples.empty_folder) = ["f/"]
  ∧ (Bucket.get_object_list 1 (Some "f/") true Examples.empty_folder).1
    = Ret (LCount 1)
  ∧ ¬ ((Bucket.get_object_list 1 (Some "f/") true Examples.empty_folder).1
       = Ret (LCount 0)).
Proof. vm_compute. by repeat split. Qed.

(** C2, amended.  When the first key of the listing of a non-empty prefix
    is the prefix itself, the listing mode leaves that sentinel out of the
    sequence it returns and out of the count it prints; the probe mode
    does not: its count is the number of keys on a page capped at two,
    the sentinel being one of them. *)
Theorem get_object_list_sentinel (fuel : nat) (folder_name : string)
    (w : World) (first : ObjectSummary) (rest : list ObjectSummary) :
  faults w = [] → 0 < page_cap w →
  truthy_str folder_name = true →
  all_under (Some folder_name) (objects w) = first :: rest →
  Key first = with_slash folder_name →
  length rest + 1 < fuel →
  (∃ w',
      Bucket.get_object_list fuel (Some folder_name) false w
        = (Ret (LObjects rest), w')
      ∧ last (stdout w') = Some (TotalFiles (length rest))
      ∧ with_slash folder_name ∉ Key <$> rest)
  ∧ (∃ w' page,
      Bucket.get_object_list fuel (Some folder_name) true w
        = (Ret (LCount (length page)), w')
      ∧ page = take (2 `min` page_cap w) (first :: rest)
      ∧ first ∈ page).
Proof.
  intros Hf Hcap Ht EL Hk Hfuel. split.
  - destruct (get_object_list_reliable fuel (Some folder_name) w)
      as (w' & Hrun & Hw' & _ & Hout); [done|done|rewrite EL; simpl; lia|].
    assert (Hc : contents (Some folder_name) (objects w) = rest).
    { unfold contents. unfold all_under in *.
      rewrite prefix_param_Some in * by done. simpl in EL |- *.
      rewrite <- (strip_sentinel _ _ first rest EL).
      by rewrite Hk, String.eqb_refl. }
    rewrite EL, Hc in *. exists w'. split; [done|]. split; [by apply Hout|].
    unfold all_under in EL. rewrite prefix_param_Some in EL by done.
    pose proof (listing_NoDup_keys (with_slash folder_name) (objects w)) as Hnd.
    simpl in EL. rewrite EL, fmap_cons, Hk in Hnd.
    by apply NoDup_cons in Hnd as [? _].
  - destruct (probe_reliable fuel (Some folder_name) w)
      as (w' & Hrun & _); [lia|done|].
    exists w', (take (2 `min` page_cap w) (first :: rest)).
    rewrite Hrun. unfold probe_answer. rewrite EL.
    destruct (2 `min` page_cap w) as [|n] eqn:En; [lia|].
    simpl. split; [done|]. split; [done|]. by left.
Qed.

Lemma get_object_list_sentinel_witness :
  (∃ w',
      Bucket.get_object_list 5 (Some "a/") false Examples.with_sentinel
        = (Ret (LObjects [Client.summary ("a/x", Examples.file "1");
                          Client.summary ("a/y", Examples.file "2")]), w')
      ∧ last (stdout w') = Some (TotalFiles 2)
      ∧ "a/" ∉ ["a/x"; "a/y"])
  ∧ (∃ w' page,
      Bucket.get_object_list 5 (Some "a/") true Examples.with_sentinel
        = (Ret (LCount (length page)), w')
      ∧ page = [Client.summary ("a/", Examples.file EmptyString);
                Client.summary ("a/x", Examples.file "1")]
      ∧ Client.summary ("a/", Examples.file EmptyString) ∈ page).
Proof.
  apply (get_object_list_sentinel 5 "a/" Examples.with_sentinel
           (Client.summary ("a/", Examples.file EmptyString)));
    [reflexivity | vm_compute; lia | reflexivity | vm_compute; reflexivity
    | reflexivity | vm_compute; lia].
Defined.

(** ** C3: a file move whose delete fails *)

(** When the copy is served and the delete of a file key fails, both keys
    are left in the bucket and [move_file] still returns [True]:
    [delete_object] has turned the failure into its result [False], which
    [move_file] does not look at. *)
Lemma move_file_delete_fails (fuel : nat) (old_name new_name : string)
    (w : World) (o : Object) (e : exn) (fs : list (option exn)) :
  faults w = None :: Some e :: fs →
  objects w !! old_name = Some o →
  endswith old_name "/" = false →
  old_name ≠ EmptyString → new_name ≠ EmptyString → old_name ≠ new_name →
  ∃ w',
    Bucket.move_file fuel old_name new_name w = (Ret true, w')
    ∧ is_Some (objects w' !! old_name)
    ∧ is_Some (objects w' !! new_name)
    ∧ last (requests w') = Some (ReqDelete old_name).
Proof.
  intros Hf Ho Hfile Hold%truthy_str_true Hnew%truthy_str_true Hne.
  unfold Bucket.move_file, Bucket.delete_object, try_except, bind,
    Client.copy_object, Client.delete_object, Client.call.
  rewrite Hfile. simpl. rewrite Hold, Hnew, Hf, Ho, (eqb_false _ _ Hne). simpl.
  eexists. split; [reflexivity|]. simpl.
  split; [|split; [|by rewrite last_snoc]].
  - rewrite lookup_insert_ne by done. eauto.
  - rewrite lookup_insert_eq. eauto.
Qed.

(** C3, the code against the claim: the copy of ["a"] to ["b"] succeeds, the
    delete of ["a"] fails with [AccessDenied]; both keys are present
    afterwards and the result is [True], not failure. *)
Theorem move_file_reports_success_on_failed_delete :
  let w := Examples.world [("a", "1")] 1000 []
             [None; Some (ClientError "AccessDenied")] in
  (Bucket.move_file 1 "a" "b" w).1 = Ret true
  ∧ Examples.keys (Bucket.move_file 1 "a" "b" w).2 = ["a"; "b"]
  ∧ requests (Bucket.move_file 1 "a" "b" w).2 = [ReqCopy "a" "b"; ReqDelete "a"].
Proof. vm_compute. done. Qed.

(** ** C4: deleting the content of a folder *)

Lemma lookup_foldr_delete (m : gmap string Object) (ks : list string) (k : string) :
  foldr delete m ks !! k = if decide (k ∈ ks) then None else m !! k.
Proof.
  induction ks as [|k' ks IH]; cbn [foldr].
  - by rewrite decide_False by apply not_elem_of_nil.
  - destruct (decide (k' = k)) as [->|Hne].
    + rewrite lookup_delete_eq. by rewrite decide_True by left.
    + rewrite lookup_delete_ne, IH by done.
      destruct (decide (k ∈ ks)) as [Hin|Hin].
      * by rewrite decide_True by by right.
      * rewrite decide_False; [done|]. intros [->|?]%elem_of_cons; done.
Qed.

(** C4, the claim as stated fails: for the folder ["f/"] that holds its
    sentinel and one file, the batch delete names the file alone and the
    sentinel stays in the bucket; for the folder that holds its sentinel
    alone there is a key under the prefix, and the call fails without any
    delete request. *)
Lemma delete_folder_data_leaves_sentinel :
  Key <$> all_under (Some "f/") (objects Examples.folder_with_file)
    = ["f/"; "f/file"]
  ∧ (Bucket.delete_folder_data 5 "f/" Examples.folder_with_file).1 = Ret true
  ∧ mutations (requests (Bucket.delete_folder_data 5 "f/" Examples.folder_with_file).2)
    = [ReqDeleteBatch ["f/file"]]
  ∧ Examples.keys (Bucket.delete_folder_data 5 "f/" Examples.folder_with_file).2
    = ["f/"]
  ∧ Key <$> all_under (Some "f/") (objects Examples.empty_folder) = ["f/"]
  ∧ (Bucket.delete_folder_data 5 "f/" Examples.empty_folder).1 = Ret false
  ∧ mutations (requests (Bucket.delete_folder_data 5 "f/" Examples.empty_folder).2)
    = [].
Proof. vm_compute. done. Qed.

(** C4, amended.  On a reliable store, [delete_folder_data] lists the
    folder and, when the folder has content, issues one batch delete whose
    keys are the keys of that content: every key under the prefix except
    the folder's own sentinel key, which stays.  It fails, without a delete
    request, when the folder has no content: the prefix matches nothing, or
    the sentinel only. *)
Theorem delete_folder_data_batch (fuel : nat) (folder_name : string) (w : World) :
  let folder := Some (with_slash folder_name) in
  let ks := Key <$> contents folder (objects w) in
  faults w = [] → 0 < page_cap w → length ks + 1 < fuel →
  ∃ w',
    Bucket.delete_folder_data fuel folder_name w
      = (Ret (negb (bool_decide (ks = []))), w')
    ∧ mutations (requests w') =
        mutations (requests w) ++
        (if bool_decide (ks = []) then [] else [ReqDeleteBatch ks])
    ∧ objects w' = foldr delete (objects w) ks
    ∧ (∀ k, objects w' !! k =
            if decide (inside folder k) then None else objects w !! k)
    ∧ objects w' !! with_slash folder_name = objects w !! with_slash folder_name.
Proof.
  intros folder ks Hf Hcap Hfuel.
  assert (Hlookup : ∀ k, foldr delete (objects w) ks !! k =
            if decide (inside folder k) then None else objects w !! k).
  { intros k. rewrite lookup_foldr_delete. unfold ks.
    destruct (decide (inside folder k)) as [Hin|Hout].
    - destruct (objects w !! k) as [o|] eqn:Ho.
      + rewrite decide_True; [done|]. apply elem_of_contents_keys. eauto.
      + by destruct (decide _).
    - rewrite decide_False; [done|].
      intros [_ ?]%elem_of_contents_keys. done. }
  assert (Hsent : foldr delete (objects w) ks !! with_slash folder_name
                  = objects w !! with_slash folder_name).
  { rewrite Hlookup. rewrite decide_False; [done|].
    unfold inside, folder. rewrite prefix_param_Some by apply with_slash_truthy.
    rewrite with_slash_idemp. by intros [_ ?]. }
  pose proof (all_under_length folder (objects w)) as Hlen.
  unfold ks in Hfuel. rewrite length_fmap in Hfuel.
  destruct (get_object_list_reliable fuel folder w)
    as (w1 & Hrun & Hw1 & _ & _); [done|done|lia|].
  unfold Bucket.delete_folder_data, try_except, bind. fold folder.
  rewrite Hrun.
  destruct (all_under folder (objects w)) as [|first rest] eqn:EL.
  { (* nothing under the prefix *)
    assert (Hks : ks = []).
    { unfold ks, contents. rewrite EL. by destruct (prefix_param folder). }
    simpl. eexists. split; [by rewrite Hks|]. simpl.
    rewrite <- Hsent, <- (same_objects _ _ Hw1), (same_mutations _ _ Hw1), Hks.
    simpl. rewrite app_nil_r. repeat split; try done.
    intros k. rewrite (same_objects _ _ Hw1), <- Hlookup, Hks. done. }
  subst ks. destruct (contents folder (objects w)) as [|c cs] eqn:Ec.
  { (* the sentinel only *)
    simpl. eexists. split; [reflexivity|]. simpl.
    rewrite (same_objects _ _ Hw1), (same_mutations _ _ Hw1), app_nil_r.
    repeat split; try done. }
  assert (Hvalid : forallb truthy_str (Key <$> c :: cs) = true).
  { rewrite <- Ec. apply contents_valid, with_slash_truthy. }
  simpl. unfold Client.delete_objects.
  rewrite call_reliable;
    [|exact Hvalid|by rewrite (same_faults _ _ Hw1)].
  simpl. eexists. split; [reflexivity|]. simpl.
  rewrite (same_objects _ _ Hw1). rewrite mutations_write by done.
  rewrite (same_mutations _ _ Hw1). repeat split; try done.
Qed.

Lemma delete_folder_data_batch_witness :
  ∃ w',
    Bucket.delete_folder_data 5 "f" Examples.folder_with_file = (Ret true, w')
    ∧ mutations (requests w') = [ReqDeleteBatch ["f/file"]]
    ∧ objects w' = foldr delete (objects Examples.folder_with_file) ["f/file"]
    ∧ (∀ k, objects w' !! k =
            if decide (inside (Some "f/") k) then None
            else objects Examples.folder_with_file !! k)
    ∧ objects w' !! "f/" = objects Examples.folder_with_file !! "f/".
Proof.
  apply (delete_folder_data_batch 5 "f" Examples.folder_with_file);
    [reflexivity | vm_compute; lia | vm_compute; lia].
Defined.

(** ** C5: deleting a folder key *)

Lemma all_under_folder_key (key : string) (m : gmap string Object) :
  endswith key "/" = true →
  prefix_param (Some key) = Some key
  ∧ all_under (Some key) m = Client.listing key m
  ∧ contents (Some key) m = filter (λ s, Key s ≠ key) (Client.listing key m).
Proof.
  intros Hend. pose proof (endswith_truthy key Hend) as Ht.
  unfold contents, all_under.
  rewrite prefix_param_Some, with_slash_fixed by done. done.
Qed.

(** C5, the claim as stated fails: the folder ["f/"] exists as the prefix of
    the file ["f/file"] and has no sentinel.  It has content, yet
    [delete_object] on ["f/"] prints no guidance and returns [True]
    (nothing is removed). *)
Lemma delete_object_implicit_folder :
  Key <$> all_under (Some "f/") (objects Examples.implicit_folder) = ["f/file"]
  ∧ (Bucket.delete_object 1 "f/" Examples.implicit_folder).1 = Ret true
  ∧ stdout (Bucket.delete_object 1 "f/" Examples.implicit_folder).2
    = [Text "The folder is present in the bucket"; Text "deleted successfully"]
  ∧ Examples.keys (Bucket.delete_object 1 "f/" Examples.implicit_folder).2
    = ["f/file"].
Proof. vm_compute. done. Qed.

(** Nothing matches the prefix: failure, nothing deleted. *)
Lemma delete_object_absent_folder (fuel : nat) (key : string) (w : World) :
  endswith key "/" = true → 0 < fuel → faults w = [] →
  all_under (Some key) (objects w) = [] →
  ∃ w', Bucket.delete_object fuel key w = (Ret false, w') ∧ unchanged w w'.
Proof.
  intros Hend Hfuel Hf EL.
  destruct (probe_reliable fuel (Some key) w Hfuel Hf) as (w1 & Hrun & Hw1).
  unfold Bucket.delete_object, try_except, bind. rewrite Hend, Hrun.
  unfold probe_answer. rewrite EL, take_nil. simpl. eauto.
Qed.

(** Two keys or more match the prefix: failure with the guidance message,
    nothing deleted. *)
Lemma delete_object_nonempty_folder (fuel : nat) (key : string) (w : World)
    (a b : ObjectSummary) (l : list ObjectSummary) :
  endswith key "/" = true → 0 < fuel → faults w = [] → 2 ≤ page_cap w →
  all_under (Some key) (objects w) = a :: b :: l →
  ∃ w', Bucket.delete_object fuel key w = (Ret false, w')
        ∧ unchanged w w' ∧ last (stdout w') = Some guidance.
Proof.
  intros Hend Hfuel Hf Hcap EL.
  destruct (probe_reliable fuel (Some key) w Hfuel Hf) as (w1 & Hrun & Hw1).
  unfold Bucket.delete_object, try_except, bind. rewrite Hend, Hrun.
  unfold probe_answer. rewrite EL.
  replace (2 `min` page_cap w) with 2 by lia. simpl.
  eexists. split; [reflexivity|].
  split; [by eapply unchanged_trans, unchanged_print|].
  simpl. by rewrite last_snoc.
Qed.

(** One key matches the prefix: the folder key is deleted. *)
Lemma delete_object_single_key (fuel : nat) (key : string) (w : World)
    (a : ObjectSummary) :
  endswith key "/" = true → 0 < fuel → faults w = [] → 0 < page_cap w →
  all_under (Some key) (objects w) = [a] →
  ∃ w', Bucket.delete_object fuel key w = (Ret true, w')
        ∧ objects w' = delete key (objects w).
Proof.
  intros Hend Hfuel Hf Hcap EL.
  destruct (probe_reliable fuel (Some key) w Hfuel Hf) as (w1 & Hrun & Hw1).
  unfold Bucket.delete_object, try_except, bind. rewrite Hend, Hrun.
  unfold probe_answer. rewrite EL.
  destruct (2 `min` page_cap w) as [|n] eqn:En; [lia|].
  simpl. rewrite take_nil. simpl. unfold Client.delete_object.
  rewrite call_reliable;
    [|by apply endswith_truthy|by rewrite (same_faults _ _ Hw1)].
  simpl. eexists. split; [reflexivity|]. simpl.
  by rewrite (same_objects _ _ Hw1).
Qed.

(** Whatever the store does, [delete_object] on a folder key touches no
    other key, and it removes an object only from a folder that holds
    nothing but its sentinel. *)
Lemma delete_object_folder_safe (fuel : nat) (key : string) (w : World) :
  endswith key "/" = true → 0 < fuel → 2 ≤ page_cap w →
  ∃ b w',
    Bucket.delete_object fuel key w = (Ret b, w')
    ∧ (objects w' = objects w ∨ objects w' = delete key (objects w))
    ∧ (objects w' ≠ objects w →
       b = true ∧ contents (Some key) (objects w) = []
       ∧ is_Some (objects w !! key)).
Proof.
  intros Hend Hfuel Hcap.
  destruct (probe_spec fuel (Some key) w Hfuel)
    as (w1 & Hrun & Ho & _ & _ & _ & Hfs & _).
  destruct (all_under_folder_key key (objects w) Hend) as (_ & EL & Ec).
  set (r := match faults w with Some _ :: _ => LFalse | _ => _ end) in Hrun.
  assert (Hr : r = LFalse ∨ r = probe_answer (Some key) w).
  { subst r. destruct (faults w) as [|[e|] fs]; auto. }
  unfold Bucket.delete_object, try_except, bind. rewrite Hend, Hrun.
  clearbody r. destruct Hr as [-> | ->].
  { simpl. eexists _, _. split; [reflexivity|]. rewrite Ho.
    split; [by left|]. by intros []. }
  unfold probe_answer. rewrite EL.
  replace (2 `min` page_cap w) with 2 by lia.
  destruct (Client.listing key (objects w)) as [|a [|a' l]] eqn:E; simpl.
  - eexists _, _. split; [reflexivity|]. rewrite Ho.
    split; [by left|]. by intros [].
  - unfold Client.delete_object, Client.call. simpl.
    rewrite (endswith_truthy key Hend).
    assert (Hsafe : objects w ≠ delete key (objects w) →
              contents (Some key) (objects w) = [] ∧ is_Some (objects w !! key)).
    { intros Hne. destruct (objects w !! key) as [o|] eqn:Hkey;
        [|by rewrite delete_id in Hne].
      destruct (listing_sentinel_first key _ o Hkey) as [rest Es].
      rewrite E in Es. simplify_eq. split; [|eauto].
      rewrite Ec. by rewrite filter_cons_False, filter_nil by (by intros ?). }
    destruct (faults w1) as [|[e|] fs1]; simpl;
      eexists _, _; (split; [reflexivity|]); simpl; rewrite ?Ho;
      try (split; [by left|by intros []]).
    all: split; [by right|]; intros Hne; split; [done|];
      apply Hsafe; congruence.
  - eexists _, _. split; [reflexivity|]. simpl. rewrite Ho.
    split; [by left|]. by intros [].
Qed.

(** C5, amended.  For a folder key (one that ends in ['/']), with pages of
    at least two keys: whatever the store does, [delete_object] returns a
    boolean, leaves every other key alone, and changes the bucket only by
    removing the sentinel of a folder that has no content.  On a reliable
    store it fails when the prefix matches nothing; it fails with the
    guidance message when the prefix matches two keys or more; and when
    the prefix matches exactly one key it issues the delete of the folder
    key and succeeds (that one key is the sentinel, or it is the single
    file of a folder without sentinel, and then nothing is removed). *)
Theorem delete_object_folder_guard (fuel : nat) (key : string) (w : World) :
  endswith key "/" = true → 0 < fuel → 2 ≤ page_cap w →
  ∃ b w',
    Bucket.delete_object fuel key w = (Ret b, w')
    ∧ (objects w' = objects w ∨ objects w' = delete key (objects w))
    ∧ (objects w' ≠ objects w →
       b = true ∧ contents (Some key) (objects w) = []
       ∧ is_Some (objects w !! key))
    ∧ (faults w = [] →
       match all_under (Some key) (objects w) with
       | [] => b = false ∧ objects w' = objects w
       | [_] => b = true ∧ objects w' = delete key (objects w)
       | _ => b = false ∧ objects w' = objects w
              ∧ last (stdout w') = Some guidance
       end).
Proof.
  intros Hend Hfuel Hcap.
  destruct (delete_object_folder_safe fuel key w Hend Hfuel Hcap)
    as (b & w' & Hrun & Hobj & Hsafe).
  exists b, w'. do 3 (split; [done|]). intros Hf.
  destruct (all_under (Some key) (objects w)) as [|a [|a' l]] eqn:EL.
  - destruct (delete_object_absent_folder fuel key w) as (w2 & Hrun2 & Hw2);
      try done.
    rewrite Hrun in Hrun2. simplify_eq. split; [done|apply Hw2].
  - destruct (delete_object_single_key fuel key w a) as (w2 & Hrun2 & Hw2);
      try done; [lia|].
    rewrite Hrun in Hrun2. by simplify_eq.
  - destruct (delete_object_nonempty_folder fuel key w a a' l)
      as (w2 & Hrun2 & Hw2 & Hout); try done.
    rewrite Hrun in Hrun2. simplify_eq. split; [done|]. split; [apply Hw2|done].
Qed.

Lemma delete_object_folder_guard_witness :
  ∃ b w',
    Bucket.delete_object 1 "f/" Examples.folder_with_file = (Ret b, w')
    ∧ (objects w' = objects Examples.folder_with_file
       ∨ objects w' = delete "f/" (objects Examples.folder_with_file))
    ∧ (objects w' ≠ objects Examples.folder_with_file →
       b = true ∧ contents (Some "f/") (objects Examples.folder_with_file) = []
       ∧ is_Some (objects Examples.folder_with_file !! "f/"))
    ∧ (faults Examples.folder_with_file = [] →
       match all_under (Some "f/") (objects Examples.folder_with_file) with
       | [] => b = false ∧ objects w' = objects Examples.folder_with_file
       | [_] => b = true
                ∧ objects w' = delete "f/" (objects Examples.folder_with_file)
       | _ => b = false ∧ objects w' = objects Examples.folder_with_file
              ∧ last (stdout w') = Some guidance
       end).
Proof.
  apply (delete_object_folder_guard 1 "f/" Examples.folder_with_file);
    [reflexivity | lia | vm_compute; lia].
Defined.

(** ** C6: what the public operations return *)

Lemma bind_Ret_inv {A B} (c : M A) (k : A → M B) (w w' : World) (b : B) :
  bind c k w = (Ret b, w') → ∃ a w1, c w = (Ret a, w1) ∧ k a w1 = (Ret b, w').
Proof.
  unfold bind. destruct (c w) as [[a| |] w1]; intros E; simplify_eq. eauto.
Qed.

(** Whatever the store does, [move_folder] never returns [True]: it returns
    [False] from its handler, and [None] when the [try] block completes. *)
Lemma move_folder_never_true (fuel : nat) (old_name new_name : string)
    (w w' : World) (r : option bool) :
  Bucket.move_folder fuel old_name new_name w = (Ret r, w') →
  r = None ∨ r = Some false.
Proof.
  unfold Bucket.move_folder, try_except.
  match goal with |- context [bind ?c ?k w] => destruct (bind c k w) as [[a|e|] w1] eqn:E end.
  - intros ?. simplify_eq. left.
    repeat (apply bind_Ret_inv in E as (? & ? & _ & E)).
    unfold ret in E. by simplify_eq.
  - unfold bind, print, ret. simpl. intros ?. simplify_eq. by right.
  - intros ?. simplify_eq.
Qed.

(** A [try] whose handler only prints and returns lets no exception out. *)
Lemma try_except_contains {A} (body : M A) (p : Printed) (a : A)
    (w w' : World) (e : exn) :
  try_except body (λ _, print p ;; ret a) w ≠ (Raise e, w').
Proof. unfold try_except. by destruct (body w) as [[?|?|] ?]. Qed.

(** The operations whose whole body is such a [try] keep every exception
    inside, whatever the store does.  [get_file_metadata], [upload_file] and
    [move_file] are not among them: their handlers read [e.response]. *)
Lemma contained_exceptions (fuel : nat) (w w' : World) (e : exn) :
  (∀ folder_name check_folder,
      Bucket.get_object_list fuel folder_name check_folder w ≠ (Raise e, w'))
  ∧ (∀ object_name, Bucket.delete_object fuel object_name w ≠ (Raise e, w'))
  ∧ (∀ file_name expiration,
      Bucket.get_file_link file_name expiration w ≠ (Raise e, w'))
  ∧ (∀ folder_name, Bucket.delete_folder_data fuel folder_name w ≠ (Raise e, w'))
  ∧ (∀ old_name new_name,
      Bucket.move_folder fuel old_name new_name w ≠ (Raise e, w')).
Proof. repeat split; intros; apply try_except_contains. Qed.

(** C6, the code against the claim: the folder ["a/"] with its sentinel and
    one file is moved to ["b/"] on a reliable store.  Every step succeeds
    and the bucket ends up holding ["b/"] and ["b/x"] only, yet the result
    is Python's [None], not the success result [True]: the [try] block has
    no [return True]. *)
Theorem move_folder_completed_returns_none :
  let w := Examples.world [("a/", EmptyString); ("a/x", "1")] 1000 [] [] in
  (Bucket.move_folder 5 "a/" "b/" w).1 = Ret None
  ∧ Examples.keys (Bucket.move_folder 5 "a/" "b/" w).2 = ["b/"; "b/x"]
  ∧ mutations (requests (Bucket.move_folder 5 "a/" "b/" w).2)
    = [ReqPut "b/"; ReqCopy "a/x" "b/x"; ReqDelete "a/x"; ReqDelete "a/"].
Proof. vm_compute. done. Qed.

(** The second way in which C6 fails: a store exception without a
    [response] attribute makes the handlers of [get_file_metadata] and
    [move_file] raise [AttributeError], which leaves [get_file_metadata],
    [upload_file] and [move_file]. *)
Lemma store_exception_escapes :
  let w := Examples.world [("k", "1")] 1000 [("/tmp/f", "2")]
             [Some (BotoCoreError "EndpointConnectionError")] in
  (Bucket.get_file_metadata "k" w).1 = Raise AttributeError
  ∧ (Bucket.upload_file "/tmp/f" (Some "k") false w).1 = Raise AttributeError
  ∧ (Bucket.move_file 1 "k" "k2" w).1 = Raise AttributeError.
Proof. vm_compute. done. Qed.

(** ** C7: uploading to a key that exists *)

(** C7, the code against the claim: the key ["k"] exists and the store
    refuses the metadata probe ([403]), then serves the transfer.  With
    [replace = False] the upload goes through all the same: the result is
    [True] and the object's content is replaced.  [get_file_metadata]
    answers [False] to every refusal, and [upload_file] takes [False] for
    an absent key. *)
Theorem upload_file_overwrites_on_refused_probe :
  let w := Examples.world [("k", "old")] 1000 [("/tmp/k", "new")]
             [Some (ClientError "403")] in
  Body <$> objects w !! "k" = Some "old"
  ∧ (Bucket.upload_file "/tmp/k" None false w).1 = Ret true
  ∧ Body <$> objects (Bucket.upload_file "/tmp/k" None false w).2 !! "k"
    = Some "new"
  ∧ requests (Bucket.upload_file "/tmp/k" None false w).2
    = [ReqHead "k"; ReqUpload "/tmp/k" "k"].
Proof. vm_compute. done. Qed.

(** X24. An upload of a local file that exists to a key which already
    exists, when the store answers the metadata probe: with
    [replace = False] it returns failure, issues no transfer and leaves the
    bucket, hence the object's content and ETag, as they were; with
    [replace = True], when the store serves the transfer too, it returns
    success and the object's content is the content of the local file. *)
Theorem upload_file_duplicate_guard (file_path : string)
    (file_name : option string) (replace : bool) (w : World)
    (key : string) (o : Object) (bytes : string) :
  key = default (basename file_path) file_name →
  key ≠ EmptyString →
  objects w !! key = Some o →
  disk w !! file_path = Some bytes →
  (∀ e fs, faults w ≠ Some e :: fs) →
  (replace = true → ∀ e fs, tail (faults w) ≠ Some e :: fs) →
  ∃ w',
    Bucket.upload_file file_path file_name replace w = (Ret replace, w')
    ∧ if replace then
        objects w' = <[key := Client.stored bytes w]> (objects w)
        ∧ Body <$> objects w' !! key = Some bytes
      else
        objects w' = objects w
        ∧ mutations (requests w') = mutations (requests w)
        ∧ ETag ∘ Client.metadata_of <$> objects w' !! key
          = Some (ETag (Client.metadata_of o)).
Proof.
  intros -> Hk Ho Hd Hprobe Htransfer.
  destruct (get_file_metadata_present (default (basename file_path) file_name)
              (log_print (Text "File name / File Size") w) o)
    as (d & w1 & Hrun & _ & Ho1 & _ & Hnow & Hd1 & Hf1 & Hr1);
    [done..|].
  simpl in Ho1, Hnow, Hd1, Hf1, Hr1.
  unfold Bucket.upload_file, try_except, bind, os_path_getsize.
  rewrite Hd. cbn [default] in *.
  assert (Hkey : match file_name with
                 | Some name => name
                 | None => basename file_path
                 end = default (basename file_path) file_name)
    by by destruct file_name.
  rewrite Hkey. clear Hkey.
  set (key := default (basename file_path) file_name) in *.
  cbn [print ret]. rewrite Hrun. cbn [print ret].
  destruct replace; simpl.
  - specialize (Htransfer eq_refl).
    unfold Client.upload_file, Client.call. simpl.
    rewrite (truthy_str_true _ Hk), Hf1.
    destruct (tail (faults w)) as [|[e|] fs] eqn:Hfs;
      [|by destruct (Htransfer e fs)|]; simpl; rewrite ?Hd1, ?Hd;
      simpl; eexists; (split; [reflexivity|]); simpl;
      unfold Client.stored; simpl; rewrite Ho1, Hnow;
      by rewrite lookup_insert_eq.
  - eexists. split; [reflexivity|]. simpl. rewrite Ho1, Hr1, Ho.
    by rewrite mutations_read.
Qed.

Lemma upload_file_duplicate_guard_witness :
  let w := Examples.world [("k", "old")] 1000 [("/tmp/k", "new")] [] in
  ∃ w',
    Bucket.upload_file "/tmp/k" None true w = (Ret true, w')
    ∧ objects w' = <["k" := Client.stored "new" w]> (objects w)
    ∧ Body <$> objects w' !! "k" = Some "new".
Proof.
  apply (upload_file_duplicate_guard "/tmp/k" None true
           (Examples.world [("k", "old")] 1000 [("/tmp/k", "new")] [])
           "k" (Examples.file "old") "new");
    [reflexivity | done | reflexivity | reflexivity | done | done].
Defined.

(** ** C8: deleting a file key that is absent *)

Lemma delete_object_file_reliable (fuel : nat) (key : string) (w : World) :
  endswith key "/" = false → key ≠ EmptyString → faults w = [] →
  Bucket.delete_object fuel key w =
    (Ret true,
     log_print (Text "deleted successfully")
       (set_objects (delete key (objects w)) (log_request (ReqDelete key) w))).
Proof.
  intros Hfile Hk Hf.
  unfold Bucket.delete_object, try_except, bind, Client.delete_object.
  rewrite Hfile. by rewrite call_reliable by (by try apply truthy_str_true).
Qed.

(** C8. On a reliable store, [delete_object] on a file key that is absent
    succeeds and leaves the bucket as it was; called again on the same key,
    it succeeds again and the bucket is still the same.  A key is a string
    of at least one character: the client rejects the empty string before
    it asks the store. *)
Theorem delete_object_absent_file (fuel : nat) (key : string) (w : World) :
  endswith key "/" = false → key ≠ EmptyString →
  objects w !! key = None → faults w = [] →
  ∃ w1 w2,
    Bucket.delete_object fuel key w = (Ret true, w1)
    ∧ objects w1 = objects w
    ∧ Bucket.delete_object fuel key w1 = (Ret true, w2)
    ∧ objects w2 = objects w.
Proof.
  intros Hfile Hk Habs Hf.
  eexists _, _.
  split; [by apply delete_object_file_reliable|]. simpl.
  split; [by apply delete_id|].
  split; [by apply delete_object_file_reliable|]. simpl.
  by rewrite !delete_id by (by rewrite ?delete_id).
Qed.

Lemma delete_object_absent_file_witness :
  ∃ w1 w2,
    Bucket.delete_object 1 "gone.txt" Examples.with_sentinel = (Ret true, w1)
    ∧ objects w1 = objects Examples.with_sentinel
    ∧ Bucket.delete_object 1 "gone.txt" w1 = (Ret true, w2)
    ∧ objects w2 = objects Examples.with_sentinel.
Proof.
  apply (delete_object_absent_file 1 "gone.txt" Examples.with_sentinel);
    [reflexivity | done | reflexivity | reflexivity].
Defined.

(** ** C9: the link generator *)

(** C9. [get_file_link] asks the store for a signed URL exactly when its
    metadata probe has succeeded.  When the probe reports the key absent
    (or does not answer), the only request made is the probe itself and the
    result is failure. *)
Theorem get_file_link_gated (file_name : string) (expiration : nat) (w : World) :
  ∃ r w',
    Bucket.get_file_link file_name expiration w = (Ret r, w')
    ∧ requests w' =
        requests w ++ ReqHead file_name ::
          (if found file_name w then [ReqPresign file_name expiration] else [])
    ∧ (found file_name w = false → r = None).
Proof.
  unfold found, Bucket.get_file_link, try_except, bind.
  destruct (decide (file_name = EmptyString)) as [->|Hk].
  { rewrite get_file_metadata_empty. simpl. eexists _, _.
    split; [reflexivity|]. done. }
  destruct (faults w) as [|[e|] fs] eqn:Hfs.
  2:{ destruct (get_file_metadata_refused file_name w e fs Hk Hfs)
        as (w1 & -> & _ & _ & _ & _ & _ & Hr1).
      destruct e; simpl; eexists _, _; (split; [reflexivity|]); simpl;
        by rewrite Hr1. }
  all: assert (Hserved : ∀ e fs', faults w ≠ Some e :: fs')
    by (by rewrite Hfs).
  all: destruct (objects w !! file_name) as [o|] eqn:Ho.
  all: try (destruct (get_file_metadata_present file_name w o Hk Hserved Ho)
        as (d & w1 & -> & _ & _ & _ & _ & _ & Hf1 & Hr1);
      unfold Client.generate_presigned_url, Client.call; simpl;
      rewrite (truthy_str_true _ Hk), Hf1, Hfs; simpl;
      try (destruct fs as [|[e|] fs]); simpl;
      eexists _, _; (split; [reflexivity|]); simpl; rewrite Hr1;
      by rewrite <- (assoc_L (++))).
  all: destruct (get_file_metadata_absent file_name w Hk Hserved Ho)
        as (w1 & -> & _ & _ & _ & _ & _ & Hr1);
      simpl; eexists _, _; (split; [reflexivity|]); simpl; by rewrite Hr1.
Qed.

(** ** C10: moving a folder that does not exist *)

Lemma listing_nil (p : string) (m : gmap string Object) :
  Client.listing p m = [] ↔
  ∀ k, is_Some (m !! k) → String.prefix p k = false.
Proof.
  split.
  - intros E k Hk. destruct (String.prefix p k) eqn:Hp; [|done].
    assert (Hin : k ∈ Key <$> Client.listing p m)
      by by apply elem_of_listing_keys.
    rewrite E in Hin. by apply elem_of_nil in Hin.
  - intros H. apply elem_of_nil_inv. intros s (o & Ho & _ & Hp)%elem_of_listing.
    rewrite H in Hp by eauto. done.
Qed.

(** A key written outside a prefix leaves the prefix without a match. *)
Lemma listing_nil_insert (p k : string) (o : Object) (m : gmap string Object) :
  Client.listing p m = [] → String.prefix p k = false →
  Client.listing p (<[k := o]> m) = [].
Proof.
  rewrite !listing_nil. intros H Hk k' Hk'.
  destruct (decide (k = k')) as [<-|Hne]; [done|].
  rewrite lookup_insert_ne in Hk' by done. auto.
Qed.

(** [create_folder] without [replace] on a reliable store: it writes the
    sentinel when the probe finds nothing under the name, and writes
    nothing otherwise. *)
Lemma create_folder_reliable (fuel : nat) (folder_name : string) (w : World) :
  0 < fuel → faults w = [] → 0 < page_cap w →
  let key := with_slash folder_name in
  ∃ w',
    Bucket.create_folder fuel folder_name false w = (Ret true, w')
    ∧ faults w' = [] ∧ page_cap w' = page_cap w
    ∧ match all_under (Some key) (objects w) with
      | [] => objects w' = <[key := Client.stored EmptyString w]> (objects w)
              ∧ mutations (requests w') = mutations (requests w) ++ [ReqPut key]
      | _ => objects w' = objects w
             ∧ mutations (requests w') = mutations (requests w)
      end.
Proof.
  intros Hfuel Hf Hcap key.
  destruct (probe_reliable fuel (Some key) w Hfuel Hf) as (w1 & Hrun & Hw1).
  unfold Bucket.create_folder, bind. fold key. rewrite Hrun.
  unfold probe_answer.
  destruct (2 `min` page_cap w) as [|n] eqn:En; [lia|].
  destruct (all_under (Some key) (objects w)) as [|a l]; simpl.
  - unfold try_except, bind, Client.put_object.
    rewrite call_reliable;
      [|by apply with_slash_truthy|by rewrite (same_faults _ _ Hw1)].
    simpl. eexists. split; [reflexivity|]. simpl.
    rewrite (same_faults _ _ Hw1), (same_page_cap _ _ Hw1),
      (same_objects _ _ Hw1).
    rewrite mutations_write, (same_mutations _ _ Hw1) by done.
    unfold Client.stored. simpl. by rewrite (same_now _ _ Hw1).
  - eexists. split; [reflexivity|]. simpl.
    by rewrite (same_faults _ _ Hw1), (same_page_cap _ _ Hw1),
      (same_objects _ _ Hw1), (same_mutations _ _ Hw1).
Qed.

(** C10, the claim as stated fails: the source ["a/"] matches nothing and
    the destination ["b/"] exists already.  [move_folder] returns [False]
    having written nothing: no sentinel is created and the bucket is
    unchanged. *)
Lemma existing_destination_gets_no_sentinel :
  let w := Examples.world [("b/", EmptyString); ("b/y", "1")] 1000 [] [] in
  all_under (Some "a/") (objects w) = []
  ∧ (Bucket.move_folder 1 "a" "b" w).1 = Ret (Some false)
  ∧ mutations (requests (Bucket.move_folder 1 "a" "b" w).2) = []
  ∧ Examples.keys (Bucket.move_folder 1 "a" "b" w).2 = Examples.keys w.
Proof. vm_compute. done. Qed.

(** C10, amended.  On a reliable store, when the source prefix matches no
    key (and the destination is not under the source), [move_folder]
    returns [False].  If the destination prefix matches no key either, the
    destination sentinel has been written before the absence is detected
    and stays behind: the bucket has changed.  If the destination exists
    already, nothing is written and the bucket is unchanged. *)
Theorem move_folder_absent_source (fuel : nat) (old_name new_name : string)
    (w : World) :
  let source := with_slash old_name in
  let dest := with_slash new_name in
  faults w = [] → 0 < page_cap w → 0 < fuel →
  all_under (Some source) (objects w) = [] →
  String.prefix source dest = false →
  ∃ w',
    Bucket.move_folder fuel old_name new_name w = (Ret (Some false), w')
    ∧ match all_under (Some dest) (objects w) with
      | [] => objects w' = <[dest := Client.stored EmptyString w]> (objects w)
              ∧ objects w' ≠ objects w
              ∧ mutations (requests w') = mutations (requests w) ++ [ReqPut dest]
      | _ => objects w' = objects w
             ∧ mutations (requests w') = mutations (requests w)
      end.
Proof.
  intros source dest Hf Hcap Hfuel Hsrc Hout.
  destruct (create_folder_reliable fuel dest w Hfuel Hf Hcap)
    as (w1 & Hrun1 & Hf1 & Hcap1 & Hw1).
  pose proof (with_slash_idemp new_name) as Hid. fold dest in Hid.
  rewrite Hid in Hw1.
  destruct (all_under_folder_key source (objects w))
    as (_ & Esrc & _); [apply with_slash_endswith|].
  destruct (all_under_folder_key source (objects w1))
    as (_ & Esrc1 & _); [apply with_slash_endswith|].
  destruct (all_under_folder_key dest (objects w))
    as (_ & Edst & _); [apply with_slash_endswith|].
  assert (Hsrc1 : all_under (Some source) (objects w1) = []).
  { rewrite Esrc1. rewrite Esrc in Hsrc.
    destruct (all_under (Some dest) (objects w)); destruct Hw1 as [-> _];
      [by apply listing_nil_insert|done]. }
  destruct (get_object_list_reliable fuel (Some source) w1)
    as (w2 & Hrun2 & Hw2 & _ & _); [done|lia|rewrite Hsrc1; simpl; lia|].
  rewrite Hsrc1 in Hrun2.
  unfold Bucket.move_folder, try_except, bind.
  fold source. fold dest. rewrite Hrun1. simpl. rewrite Hrun2. simpl.
  eexists. split; [reflexivity|]. simpl.
  rewrite (same_objects _ _ Hw2), (same_mutations _ _ Hw2).
  destruct (all_under (Some dest) (objects w)) as [|a l] eqn:Ed; [|done].
  destruct Hw1 as [Ho Hm]. split; [done|]. split; [|done].
  rewrite Ho. intros E.
  assert (Hnone : objects w !! dest = None).
  { pose proof (proj1 (listing_nil dest (objects w)) (eq_sym Edst) dest) as H.
    destruct (objects w !! dest) eqn:Hd; [|done].
    rewrite prefix_refl in H. by discriminate H. }
  apply (f_equal (λ m, m !! dest)) in E.
  rewrite lookup_insert_eq, Hnone in E. done.
Qed.

Lemma move_folder_absent_source_witness :
  let w := Examples.world [("c", "1")] 1000 [] [] in
  ∃ w',
    Bucket.move_folder 1 "a" "b" w = (Ret (Some false), w')
    ∧ objects w' = <["b/" := Client.stored EmptyString w]> (objects w)
    ∧ objects w' ≠ objects w
    ∧ mutations (requests w') = mutations (requests w) ++ [ReqPut "b/"].
Proof.
  apply (move_folder_absent_source 1 "a" "b"
           (Examples.world [("c", "1")] 1000 [] []));
    [reflexivity | vm_compute; lia | lia | vm_compute; reflexivity
    | reflexivity].
Defined.

(** * Further properties of the code *)

(** ** Computations that only read *)

Lemma quiet_ret {A} (a : A) : quiet (ret a).
Proof. by intros w. Qed.

Lemma quiet_raise {A} (e : exn) : quiet (@raise A e).
Proof. by intros w. Qed.

Lemma quiet_print (p : Printed) : quiet (print p).
Proof. by intros w. Qed.

Lemma quiet_bind {A B} (c : M A) (k : A → M B) :
  quiet c → (∀ a, quiet (k a)) → quiet (bind c k).
Proof.
  intros Hc Hk w. specialize (Hc w). unfold bind.
  destruct (c w) as [[a|e|] w1]; simpl in *; [|done..].
  destruct (Hk a w1) as (-> & -> & ->). done.
Qed.

Lemma quiet_try {A} (c : M A) (h : exn → M A) :
  quiet c → (∀ e, quiet (h e)) → quiet (try_except c h).
Proof.
  intros Hc Hh w. specialize (Hc w). unfold try_except.
  destruct (c w) as [[a|e|] w1]; simpl in *; [done| |done].
  destruct (Hh e w1) as (-> & -> & ->). done.
Qed.

Lemma quiet_call {A} (r : Request) (serve : M A) :
  is_mutation r = false → quiet serve → quiet (Client.call r serve).
Proof.
  intros Hr Hs w. unfold Client.call. simpl.
  destruct (Client.valid r); [|simpl; by rewrite mutations_read].
  destruct (faults w) as [|[e|] fs]; simpl.
  - destruct (Hs (log_request r w)) as (-> & -> & ->).
    simpl. by rewrite mutations_read.
  - by rewrite mutations_read.
  - destruct (Hs (set_faults fs (log_request r w))) as (-> & -> & ->).
    simpl. by rewrite mutations_read.
Qed.

Lemma quiet_error_code (e : exn) : quiet (error_code e).
Proof. destruct e; by intros w. Qed.

Lemma quiet_list_objects_v2 (prefix : option string) (token : option Token)
    (max_keys : option nat) :
  quiet (Client.list_objects_v2 prefix token max_keys).
Proof. apply quiet_call; [done|]. by intros w. Qed.

Lemma quiet_head_object (key : string) : quiet (Client.head_object key).
Proof.
  apply quiet_call; [done|]. intros w. by destruct (objects w !! key).
Qed.

Lemma quiet_list_pages (fuel : nat) :
  ∀ folder_name check_folder object_list token,
    quiet (Bucket.list_pages fuel folder_name check_folder object_list token).
Proof.
  induction fuel as [|fuel IH]; intros folder_name check_folder acc token;
    [by intros w|].
  cbn [Bucket.list_pages].
  apply quiet_bind; [apply quiet_list_objects_v2|]. intros response.
  assert (Hpaginate : ∀ l,
    quiet (if IsTruncated response
           then print (Text "Continuation Token Present...") ;;
                Bucket.list_pages fuel (normalized folder_name) check_folder l
                  (NextContinuationToken response)
           else ret (Break (normalized folder_name) l))).
  { intros l. destruct (IsTruncated response); [|apply quiet_ret].
    apply quiet_bind; [apply quiet_print|]. intros _. apply IH. }
  destruct check_folder.
  - destruct (Contents response);
      (apply quiet_bind; [apply quiet_print|]); intros _; apply quiet_ret.
  - destruct (Contents response); [apply Hpaginate|].
    destruct (length acc =? 0); [|apply Hpaginate].
    apply quiet_bind; [apply quiet_print|]. intros _. apply quiet_ret.
Qed.

Lemma quiet_get_object_list (fuel : nat) (folder_name : option string)
    (check_folder : bool) :
  quiet (Bucket.get_object_list fuel folder_name check_folder).
Proof.
  unfold Bucket.get_object_list. apply quiet_try.
  - apply quiet_bind; [apply quiet_list_pages|]. intros [r|fn l];
      [apply quiet_ret|].
    destruct fn as [f|]; [destruct (truthy_str f)|];
      try (apply quiet_bind; [apply quiet_print|]; intros _; apply quiet_ret).
    destruct l as [|first rest]; [apply quiet_raise|].
    destruct (Bucket.is_sentinel first (Some f));
      (apply quiet_bind; [apply quiet_print|]); intros _; apply quiet_ret.
  - intros e. apply quiet_bind; [apply quiet_print|]. intros _. apply quiet_ret.
Qed.

Lemma quiet_change_timezone (date_ : datetime) (timezone : string) :
  quiet (change_timezone date_ timezone).
Proof.
  intros w.
  by destruct (change_timezone_spec date_ timezone w)
    as (d & w' & -> & _ & [-> | ->]).
Qed.

Lemma quiet_get_file_metadata (file_name : string) :
  quiet (Bucket.get_file_metadata file_name).
Proof.
  unfold Bucket.get_file_metadata. apply quiet_try.
  - apply quiet_bind; [apply quiet_head_object|]. intros md.
    apply quiet_bind; [apply quiet_change_timezone|]. intros d.
    apply quiet_ret.
  - intros e. apply quiet_bind; [apply quiet_error_code|]. intros code.
    apply quiet_bind; [|intros _; apply quiet_ret].
    destruct (String.eqb code "404"); apply quiet_print.
Qed.

Lemma quiet_get_file_link (file_name : string) (expiration : nat) :
  quiet (Bucket.get_file_link file_name expiration).
Proof.
  unfold Bucket.get_file_link. apply quiet_try.
  - apply quiet_bind; [apply quiet_get_file_metadata|]. intros [md|];
      [|apply quiet_raise].
    apply quiet_bind; [|intros url; apply quiet_ret].
    apply quiet_call; [done|apply quiet_ret].
  - intros e. apply quiet_bind; [apply quiet_print|]. intros _. apply quiet_ret.
Qed.

Lemma quiet_check_credentials : quiet Bucket.check_credentials.
Proof.
  unfold Bucket.check_credentials. apply quiet_try.
  - apply quiet_bind; [apply quiet_call; [done|apply quiet_ret]|]. intros _.
    apply quiet_bind; [apply quiet_print|]. intros _. apply quiet_ret.
  - intros e. apply quiet_bind; [|intros _; apply quiet_ret].
    destruct e as [code|name| | | | | |]; try apply quiet_print.
    + destruct (String.eqb code "InvalidAccessKeyId"); [apply quiet_print|].
      destruct (String.eqb code "SignatureDoesNotMatch"); apply quiet_print.
    + destruct (String.eqb name "NoCredentialsError"); apply quiet_print.
Qed.

(** X1. The operations that only look at the bucket, [get_object_list] (in
    both modes), [get_file_metadata], [get_file_link] and
    [check_credentials], are read-only: for every input, every store
    behaviour and every amount of fuel they leave the bucket and the disk
    unchanged and send no request that changes the bucket. *)
Theorem read_operations_are_quiet :
  (∀ fuel folder_name check_folder,
      quiet (Bucket.get_object_list fuel folder_name check_folder))
  ∧ (∀ file_name, quiet (Bucket.get_file_metadata file_name))
  ∧ (∀ file_name expiration, quiet (Bucket.get_file_link file_name expiration))
  ∧ quiet Bucket.check_credentials.
Proof.
  split; [apply quiet_get_object_list|].
  split; [apply quiet_get_file_metadata|].
  split; [apply quiet_get_file_link|apply quiet_check_credentials].
Qed.

(** ** Computations that write under given keys only *)

Lemma confined_quiet {A} (K : string → Prop) (c : M A) : quiet c → confined K c.
Proof. intros Hc w k _. by destruct (Hc w) as [-> _]. Qed.

Lemma confined_mono {A} (K K' : string → Prop) (c : M A) :
  (∀ k, K k → K' k) → confined K c → confined K' c.
Proof. intros HK Hc w k Hk. apply Hc. auto. Qed.

Lemma confined_bind {A B} (K : string → Prop) (c : M A) (k : A → M B) :
  confined K c → (∀ a, confined K (k a)) → confined K (bind c k).
Proof.
  intros Hc Hk w x Hx. specialize (Hc w x Hx). unfold bind.
  destruct (c w) as [[a|e|] w1]; simpl in *; [|done..].
  by rewrite (Hk a w1 x Hx).
Qed.

(** The same, when the continuation is confined for the values that the
    first computation can return. *)
Lemma confined_bind_returns {A B} (K : string → Prop) (Q : A → Prop)
    (c : M A) (k : A → M B) :
  confined K c → returns c Q → (∀ a, Q a → confined K (k a)) →
  confined K (bind c k).
Proof.
  intros Hc HQ Hk w x Hx. specialize (Hc w x Hx). specialize (HQ w).
  unfold bind. destruct (c w) as [[a|e|] w1]; simpl in *; [|done..].
  by rewrite (Hk a (HQ a eq_refl) w1 x Hx).
Qed.

Lemma confined_try {A} (K : string → Prop) (c : M A) (h : exn → M A) :
  confined K c → (∀ e, confined K (h e)) → confined K (try_except c h).
Proof.
  intros Hc Hh w x Hx. specialize (Hc w x Hx). unfold try_except.
  destruct (c w) as [[a|e|] w1]; simpl in *; [done| |done].
  by rewrite (Hh e w1 x Hx).
Qed.

Lemma confined_call {A} (K : string → Prop) (r : Request) (serve : M A) :
  confined K serve → confined K (Client.call r serve).
Proof.
  intros Hs w x Hx. unfold Client.call. simpl.
  destruct (Client.valid r); [|done].
  destruct (faults w) as [|[e|] fs]; simpl; [|done|]; by rewrite Hs.
Qed.

Lemma confined_for_each {A} (K : string → Prop) (xs : list A) (body : A → M unit) :
  (∀ x, x ∈ xs → confined K (body x)) → confined K (for_each xs body).
Proof.
  induction xs as [|x xs IH]; intros Hb; simpl; [by intros w k _|].
  apply confined_bind; [apply Hb; by left|]. intros _.
  apply IH. intros y Hy. apply Hb. by right.
Qed.

Lemma confined_put_object (key : string) :
  confined (λ k, k = key) (Client.put_object key).
Proof.
  apply confined_call. intros w k Hk. simpl. by rewrite lookup_insert_ne.
Qed.

Lemma confined_client_delete (key : string) :
  confined (λ k, k = key) (Client.delete_object key).
Proof.
  apply confined_call. intros w k Hk. simpl. by rewrite lookup_delete_ne.
Qed.

Lemma confined_copy_object (source dest : string) :
  confined (λ k, k = dest) (Client.copy_object source dest).
Proof.
  apply confined_call. intros w k Hk.
  destruct (objects w !! source); simpl; [|done].
  destruct (String.eqb source dest); simpl; [done|].
  by rewrite lookup_insert_ne.
Qed.

Lemma confined_client_upload (file_path key : string) :
  confined (λ k, k = key)
    (Client.upload_file file_path key (ProgressPercentage file_path)).
Proof.
  apply confined_call. intros w k Hk.
  destruct (disk w !! file_path); simpl; [|done]. by rewrite lookup_insert_ne.
Qed.

Lemma confined_delete_objects (keys : list string) :
  confined (λ k, k ∈ keys) (Client.delete_objects keys).
Proof.
  apply confined_call. intros w k Hk. simpl.
  rewrite lookup_foldr_delete. by rewrite decide_False.
Qed.

Ltac quiet_step :=
  first [ apply quiet_ret | apply quiet_raise | apply quiet_print
        | apply quiet_get_object_list | apply quiet_get_file_metadata ].

Ltac confined_step :=
  first [ apply confined_quiet; quiet_step
        | apply confined_bind; [|intros ?]
        | apply confined_try; [|intros ?] ].

Lemma confined_create_folder (fuel : nat) (folder_name : string) (replace : bool) :
  confined (λ k, k = with_slash folder_name)
    (Bucket.create_folder fuel folder_name replace).
Proof.
  unfold Bucket.create_folder.
  assert (Hcreate : confined (λ k, k = with_slash folder_name)
    (try_except
       (Client.put_object (with_slash folder_name) ;;
        print (Text "Folder created....") ;; ret true)
       (λ _, print (Text "Cannot create the folder...") ;; ret false))).
  { repeat confined_step. apply confined_put_object. }
  confined_step; [confined_step|].
  destruct (truthy _); [|done]. confined_step; [confined_step|].
  destruct (negb replace); [confined_step|done].
Qed.

Lemma confined_delete_object (fuel : nat) (object_name : string) :
  confined (λ k, k = object_name) (Bucket.delete_object fuel object_name).
Proof.
  unfold Bucket.delete_object.
  assert (Hdelete : confined (λ k, k = object_name)
    (Client.delete_object object_name ;;
     print (Text "deleted successfully") ;; ret true)).
  { repeat confined_step. apply confined_client_delete. }
  confined_step; [|repeat confined_step].
  destruct (endswith object_name "/"); [|done].
  confined_step; [confined_step|].
  destruct (negb (truthy _)); [confined_step|].
  confined_step; [destruct a; confined_step|].
  destruct a0; [repeat confined_step|done].
Qed.

Lemma confined_move_file (fuel : nat) (old_name new_name : string) :
  confined (λ k, k = old_name ∨ k = new_name)
    (Bucket.move_file fuel old_name new_name).
Proof.
  unfold Bucket.move_file. confined_step.
  - confined_step.
    { eapply confined_mono, confined_copy_object. auto. }
    confined_step; [|repeat confined_step].
    eapply confined_mono, confined_delete_object. auto.
  - confined_step; [destruct e; confined_step|].
    confined_step; [destruct (String.eqb _ _); confined_step|].
    repeat confined_step.
Qed.

Lemma confined_upload_file (file_path : string) (file_name : option string)
    (replace : bool) :
  confined (λ k, k = default (basename file_path) file_name)
    (Bucket.upload_file file_path file_name replace).
Proof.
  unfold Bucket.upload_file.
  eapply (confined_bind_returns _
            (λ r, ∀ n, r = Some n → n = default (basename file_path) file_name)).
  - confined_step.
    + confined_step; [|repeat confined_step].
      intros w k _. unfold os_path_getsize. by destruct (disk w !! file_path).
    + destruct e; repeat confined_step.
  - intros w r. unfold try_except, bind, os_path_getsize.
    destruct (disk w !! file_path); simpl.
    + intros [= <-] n [= <-]. by destruct file_name.
    + destruct (os_errors w !! file_path) as [[]|]; simpl; intros ?;
        by simplify_eq.
  - intros [n|] Hn; [|confined_step]. rewrite (Hn n eq_refl).
    assert (Htransfer : confined
      (λ k, k = default (basename file_path) file_name)
      (try_except
         (Client.upload_file file_path (default (basename file_path) file_name)
            (ProgressPercentage file_path) ;;
          print (Text "File uploaded....") ;; ret true)
         (λ _, print (Text "File cannot be uplaoded") ;; ret false))).
    { repeat confined_step. apply confined_client_upload. }
    confined_step; [confined_step|].
    destruct a; [|done]. confined_step; [confined_step|].
    destruct (negb replace); [confined_step|done].
Qed.

(** X2. Whatever the store does, the operations that write one object touch
    nothing else: [create_folder] changes at most the folder's sentinel key
    (also with [replace = True]: the folder's content is not erased),
    [delete_object] at most the key it is given, [move_file] at most the
    old and the new key, and [upload_file] at most the target key. *)
Theorem single_key_writers_are_confined :
  (∀ fuel folder_name replace,
      confined (λ k, k = with_slash folder_name)
        (Bucket.create_folder fuel folder_name replace))
  ∧ (∀ fuel object_name,
      confined (λ k, k = object_name) (Bucket.delete_object fuel object_name))
  ∧ (∀ fuel old_name new_name,
      confined (λ k, k = old_name ∨ k = new_name)
        (Bucket.move_file fuel old_name new_name))
  ∧ (∀ file_path file_name replace,
      confined (λ k, k = default (basename file_path) file_name)
        (Bucket.upload_file file_path file_name replace)).
Proof.
  split; [apply confined_create_folder|].
  split; [apply confined_delete_object|].
  split; [apply confined_move_file|apply confined_upload_file].
Qed.

(** ** What the listing can return, whatever the store does *)

Lemma returns_ret {A} (Q : A → Prop) (a : A) : Q a → returns (ret a) Q.
Proof. intros Ha w a' [= <-]. done. Qed.

Lemma returns_raise {A} (Q : A → Prop) (e : exn) : returns (raise e) Q.
Proof. by intros w a. Qed.

Lemma returns_bind {A B} (Q : A → Prop) (R : B → Prop) (c : M A) (k : A → M B) :
  returns c Q → (∀ a, Q a → returns (k a) R) → returns (bind c k) R.
Proof.
  intros Hc Hk w b. specialize (Hc w). unfold bind.
  destruct (c w) as [[a|e|] w1]; simpl in *; [|done..].
  apply Hk. by apply Hc.
Qed.

Lemma returns_try {A} (R : A → Prop) (c : M A) (h : exn → M A) :
  returns c R → (∀ e, returns (h e) R) → returns (try_except c h) R.
Proof.
  intros Hc Hh w a. specialize (Hc w). unfold try_except.
  destruct (c w) as [[a'|e|] w1]; simpl in *; [by apply Hc| |done].
  apply Hh.
Qed.

Lemma returns_call {A} (Q : A → Prop) (r : Request) (serve : M A) :
  returns serve Q → returns (Client.call r serve) Q.
Proof.
  intros Hs w a. unfold Client.call. simpl.
  destruct (Client.valid r); [|done].
  destruct (faults w) as [|[e|] fs]; simpl; [apply Hs|done|apply Hs].
Qed.

Lemma returns_print_then {A} (Q : A → Prop) (p : Printed) (c : M A) :
  returns c Q → returns (print p ;; c) Q.
Proof. intros Hc. apply (returns_bind (λ _, True)); [done|auto]. Qed.

(** Every entry of a page lies under the prefix that was asked for. *)
Lemma returns_list_objects_v2 (prefix : option string) (token : option Token)
    (max_keys : option nat) :
  returns (Client.list_objects_v2 prefix token max_keys)
    (λ response, ∀ contents, Contents response = Some contents →
       Forall (λ s, String.prefix (default EmptyString prefix) (Key s) = true)
              contents).
Proof.
  apply returns_call. intros w response [= <-] contents. unfold Client.page_of.
  simpl. intros Hc.
  assert (Hall : Forall
    (λ s, String.prefix (default EmptyString prefix) (Key s) = true)
    (take (Client.page_size max_keys w)
       (drop (Client.position token)
          (Client.listing (default EmptyString prefix) (objects w))))).
  { apply Forall_take, Forall_drop, Forall_forall.
    intros s (o & _ & _ & Hp)%elem_of_listing. done. }
  destruct (take _ _); by simplify_eq.
Qed.

Lemma returns_list_pages (fuel : nat) :
  ∀ folder_name object_list token,
    Forall (λ s, String.prefix (default EmptyString (prefix_param folder_name))
                               (Key s) = true) object_list →
    returns (Bucket.list_pages fuel folder_name false object_list token)
      (λ exit, match exit with
               | Return r => r = LFalse
               | Break fn l =>
                   fn = normalized folder_name ∧
                   Forall (λ s, String.prefix
                                  (default EmptyString (prefix_param folder_name))
                                  (Key s) = true) l
               end).
Proof.
  induction fuel as [|fuel IH]; intros folder_name acc token Hacc;
    [by intros w a|].
  cbn [Bucket.list_pages].
  fold (normalized folder_name). fold (prefix_param folder_name).
  eapply returns_bind; [apply returns_list_objects_v2|].
  intros response Hresp. simpl in Hresp.
  assert (Hpaginate : ∀ l,
    Forall (λ s, String.prefix (default EmptyString (prefix_param folder_name))
                               (Key s) = true) l →
    returns
      (if IsTruncated response
       then print (Text "Continuation Token Present...") ;;
            Bucket.list_pages fuel (normalized folder_name) false l
              (NextContinuationToken response)
       else ret (Break (normalized folder_name) l))
      (λ exit, match exit with
               | Return r => r = LFalse
               | Break fn l' =>
                   fn = normalized folder_name ∧
                   Forall (λ s, String.prefix
                                  (default EmptyString (prefix_param folder_name))
                                  (Key s) = true) l'
               end)).
  { intros l Hl. destruct (IsTruncated response).
    - apply returns_print_then.
      specialize (IH (normalized folder_name) l (NextContinuationToken response)).
      rewrite prefix_param_normalized, normalized_idemp in IH. by apply IH.
    - by apply returns_ret. }
  destruct (Contents response) as [contents|].
  - apply Hpaginate, Forall_app. split; [done|]. by apply Hresp.
  - destruct (length acc =? 0); [|by apply Hpaginate].
    by apply returns_print_then, returns_ret.
Qed.

(** Whatever the store does, every object that the listing mode returns
    lies under the prefix that was listed. *)
Lemma returns_get_object_list (fuel : nat) (folder_name : option string) :
  returns (Bucket.get_object_list fuel folder_name false)
    (λ r, ∀ l, r = LObjects l →
       Forall (λ s, String.prefix
                      (default EmptyString (prefix_param folder_name))
                      (Key s) = true) l).
Proof.
  unfold Bucket.get_object_list. apply returns_try.
  - eapply returns_bind; [by apply returns_list_pages|].
    intros [r|fn l] Hexit; simpl in Hexit.
    { subst r. by apply returns_ret. }
    destruct Hexit as [-> Hl].
    assert (Hwhole : returns
      (print (TotalFiles (length l)) ;; ret (LObjects l))
      (λ r, ∀ l', r = LObjects l' →
         Forall (λ s, String.prefix
                        (default EmptyString (prefix_param folder_name))
                        (Key s) = true) l')).
    { apply returns_print_then, returns_ret. by intros l' [= <-]. }
    destruct (normalized folder_name) as [f|]; [|done].
    destruct (truthy_str f); [|done].
    destruct l as [|first rest]; [apply returns_raise|].
    destruct (Bucket.is_sentinel first (Some f)); [|done].
    apply returns_print_then, returns_ret. intros l' [= <-].
    by apply Forall_inv_tail in Hl.
  - intros e. by apply returns_print_then, returns_ret.
Qed.

Lemma prefix_app (p x : string) : String.prefix p (p +:+ x) = true.
Proof.
  induction p as [|a p IH]; [apply prefix_empty|]. simpl.
  by destruct (Ascii.ascii_dec a a).
Qed.

(** The key that [move_folder] computes for an object of the source folder
    lies under the destination prefix. *)
Lemma replace_first_prefix (s old new : string) :
  String.prefix old s = true →
  replace_first s old new = new +:+ drop_chars (String.length old) s.
Proof. intros H. destruct s; simpl; simpl in H; by rewrite H. Qed.

Lemma confined_raise_bind {A B} (K : string → Prop) (e : exn) (k : A → M B) :
  confined K (bind (raise e) k).
Proof. by intros w x _. Qed.

Lemma confined_ret_bind {A B} (K : string → Prop) (a : A) (k : A → M B) :
  confined K (k a) → confined K (bind (ret a) k).
Proof. intros Hk w x Hx. apply (Hk w x Hx). Qed.

Lemma confined_delete_folder_data (fuel : nat) (folder_name : string) :
  confined (λ k, String.prefix (with_slash folder_name) k = true)
    (Bucket.delete_folder_data fuel folder_name).
Proof.
  unfold Bucket.delete_folder_data. confined_step; [|repeat confined_step].
  eapply confined_bind_returns;
    [confined_step|apply returns_get_object_list|].
  intros r Hr. destruct r as [|n|l]; simpl.
  - repeat confined_step.
  - destruct (negb (negb (n =? 0))); [repeat confined_step|].
    apply confined_raise_bind.
  - destruct (negb (negb (length l =? 0))); [repeat confined_step|].
    specialize (Hr l eq_refl).
    rewrite prefix_param_Some, with_slash_idemp in Hr by apply with_slash_truthy.
    simpl in Hr. apply confined_ret_bind.
    confined_step; [|repeat confined_step].
    eapply confined_mono, confined_delete_objects.
    intros k (s & -> & Hs)%list_elem_of_fmap.
    rewrite Forall_forall in Hr. by apply Hr.
Qed.

Lemma confined_move_folder (fuel : nat) (old_name new_name : string) :
  confined (λ k, String.prefix (with_slash old_name) k = true
                 ∨ String.prefix (with_slash new_name) k = true)
    (Bucket.move_folder fuel old_name new_name).
Proof.
  unfold Bucket.move_folder. confined_step; [|repeat confined_step].
  confined_step.
  { eapply confined_mono, confined_create_folder.
    intros k ->. right. rewrite with_slash_idemp. apply prefix_refl. }
  confined_step;
    [match goal with |- context [negb ?b] => destruct (negb b) end;
     confined_step|].
  eapply confined_bind_returns;
    [confined_step|apply returns_get_object_list|].
  intros r Hr.
  destruct r as [|n|l]; simpl; try apply confined_raise_bind.
  specialize (Hr l eq_refl).
  rewrite prefix_param_Some, with_slash_idemp in Hr by apply with_slash_truthy.
  simpl in Hr. rewrite Forall_forall in Hr.
  apply confined_ret_bind. confined_step.
  { apply confined_for_each. intros obj Hobj.
    confined_step; [|confined_step].
    eapply confined_mono, confined_move_file. intros k [-> | ->].
    - left. by apply Hr.
    - right. rewrite replace_first_prefix by by apply Hr. apply prefix_app. }
  confined_step.
  { eapply confined_mono, confined_delete_object.
    intros k ->. left. apply prefix_refl. }
  confined_step; [|confined_step].
  match goal with |- context [negb ?b] => destruct (negb b) end; confined_step.
Qed.

(** X3. Whatever the store does, the folder operations stay inside their
    folders: [delete_folder_data] changes no key outside the prefix of the
    folder, and [move_folder] changes no key outside the source prefix and
    the destination prefix. *)
Theorem folder_writers_are_confined :
  (∀ fuel folder_name,
      confined (λ k, String.prefix (with_slash folder_name) k = true)
        (Bucket.delete_folder_data fuel folder_name))
  ∧ (∀ fuel old_name new_name,
      confined (λ k, String.prefix (with_slash old_name) k = true
                     ∨ String.prefix (with_slash new_name) k = true)
        (Bucket.move_folder fuel old_name new_name)).
Proof. split; [apply confined_delete_folder_data|apply confined_move_folder]. Qed.

(** ** A listing is never partial *)

Lemma list_objects_v2_served (prefix : option string) (token : option Token)
    (max_keys : option nat) (w w1 : World) (response : ListResponse) :
  Client.list_objects_v2 prefix token max_keys w = (Ret response, w1) →
  response = Client.page_of
               (Client.listing (default EmptyString prefix) (objects w))
               (Client.position token) (Client.page_size max_keys w)
  ∧ objects w1 = objects w ∧ page_cap w1 = page_cap w.
Proof.
  unfold Client.list_objects_v2, Client.call. simpl.
  destruct (faults w) as [|[e|] fs]; intros [= <- <-]; done.
Qed.

(** When the loop of the listing mode comes to an end, whatever failures
    the store had on the way, it has seen every object under the prefix. *)
Lemma list_pages_sound (fuel : nat) :
  ∀ (folder_name : option string) (acc : list ObjectSummary)
    (token : option Token) (w w' : World) (exit : LoopExit),
    0 < page_cap w →
    Bucket.list_pages fuel folder_name false acc token w = (Ret exit, w') →
    exit = match acc ++ drop (Client.position token)
                             (all_under folder_name (objects w)) with
           | [] => Return LFalse
           | l => Break (normalized folder_name) l
           end.
Proof.
  induction fuel as [|fuel IH]; intros folder_name acc token w w' exit Hcap;
    [done|].
  cbn [Bucket.list_pages].
  fold (normalized folder_name). fold (prefix_param folder_name).
  intros (response & w1 & Hlist & Hrun)%bind_Ret_inv.
  apply list_objects_v2_served in Hlist as (-> & Ho & Hc).
  fold (all_under folder_name (objects w)) in Hrun.
  set (L := all_under folder_name (objects w)) in *.
  set (start := Client.position token) in *.
  revert Hrun. unfold Client.page_of, Client.page_size.
  cbn [Contents IsTruncated NextContinuationToken].
  set (n := page_cap w) in *.
  destruct (bool_decide_reflect (start + n < length L)) as [Hmore|Hlast].
  - assert (Hpage : take n (drop start L) ≠ []).
    { intros E%(f_equal length). rewrite length_take, length_drop in E.
      simpl in E. lia. }
    destruct (take n (drop start L)) as [|x page] eqn:Epage; [done|].
    rewrite <- Epage. intros Hrun.
    apply (IH _ _ _ (log_print (Text "Continuation Token Present...") w1))
      in Hrun; [|simpl; lia].
    revert Hrun. unfold all_under.
    rewrite prefix_param_normalized, normalized_idemp. simpl. rewrite Ho.
    change (Client.listing _ (objects w)) with L.
    by rewrite <- (assoc_L (++)), <- (drop_drop L n start), take_drop.
  - rewrite take_ge by (rewrite length_drop; lia).
    destruct (drop start L) as [|x page] eqn:Edrop.
    + rewrite app_nil_r. destruct acc as [|a acc]; simpl; by intros [= <- _].
    + intros [= <- _]. by destruct acc.
Qed.

(** A list that the listing mode returns is the whole content. *)
Lemma listing_is_whole (fuel : nat)
    (folder_name : option string) (w : World) (l : list ObjectSummary) :
  0 < page_cap w →
  (Bucket.get_object_list fuel folder_name false w).1 = Ret (LObjects l) →
  l = contents folder_name (objects w).
Proof.
  intros Hcap. unfold Bucket.get_object_list, try_except.
  destruct (bind _ _ w) as [[r|e|] w1] eqn:Hbody; simpl; [|done..].
  intros [= ->].
  apply bind_Ret_inv in Hbody as (exit & w2 & Hloop & Hpost).
  apply list_pages_sound in Hloop; [|done]. simpl in Hloop.
  rewrite drop_0 in Hloop. unfold contents.
  destruct (all_under folder_name (objects w)) as [|first rest] eqn:EL;
    subst exit; [done|].
  unfold all_under, prefix_param in *.
  destruct (normalized folder_name) as [f|];
    [destruct (truthy_str f)|]; simpl in *.
  - pose proof (strip_sentinel f _ first rest EL) as Hs. rewrite EL in Hs.
    rewrite <- Hs. unfold bind, print, ret in Hpost.
    destruct (String.eqb (Key first) f); by simplify_eq.
  - unfold bind, print, ret in Hpost. by simplify_eq.
  - unfold bind, print, ret in Hpost. by simplify_eq.
Qed.

(** A list request uses up the head of the schedule. *)
Lemma list_objects_v2_faults (prefix : option string) (token : option Token)
    (max_keys : option nat) (w w1 : World) (r : Res ListResponse) :
  Client.list_objects_v2 prefix token max_keys w = (r, w1) →
  length (faults w1) ≤ length (faults w)
  ∧ match r with
    | Ret _ =>
        ∀ w', length (faults w') ≤ length (faults w1) →
              refusals w w' = refusals w1 w'
    | Raise e => True
    | OutOfFuel => False
    end.
Proof.
  unfold Client.list_objects_v2, Client.call. simpl.
  destruct (faults w) as [|[e|] fs] eqn:Hfs; intros [= <- <-]; simpl;
    rewrite ?Hfs; (split; [simpl; lia|]); try done.
  intros w' Hlen. unfold refusals. simpl. rewrite Hfs. simpl length.
  by replace (S (length fs) - length (faults w'))
    with (S (length fs - length (faults w'))) by lia.
Qed.

(** The loop uses up the schedule from its head, and it stops with the
    first error that the store answers. *)
Lemma list_pages_refusals (fuel : nat) :
  ∀ (folder_name : option string) (acc : list ObjectSummary)
    (token : option Token) (w w' : World) (r : Res LoopExit),
    Bucket.list_pages fuel folder_name false acc token w = (r, w') →
    length (faults w') ≤ length (faults w)
    ∧ ((∀ e, r ≠ Raise e) → refusals w w' = []).
Proof.
  induction fuel as [|fuel IH]; intros folder_name acc token w w' r.
  { intros [= <- <-]. split; [done|]. intros _. unfold refusals.
    by rewrite Nat.sub_diag. }
  cbn [Bucket.list_pages].
  fold (normalized folder_name). fold (prefix_param folder_name).
  unfold bind.
  destruct (Client.list_objects_v2 _ _ _ w) as [[response|e|] w1] eqn:Hcall;
    apply list_objects_v2_faults in Hcall as [Hlen1 Hstep].
  - assert (Hstop : ∀ w0, faults w0 = faults w1 →
      length (faults w0) ≤ length (faults w) ∧ refusals w w0 = []).
    { intros w0 Hw0. rewrite Hw0. split; [done|].
      rewrite Hstep by (by rewrite Hw0). unfold refusals.
      by rewrite Hw0, Nat.sub_diag. }
    assert (Hnext : ∀ l t,
      Bucket.list_pages fuel (normalized folder_name) false l t
        (log_print (Text "Continuation Token Present...") w1) = (r, w') →
      length (faults w') ≤ length (faults w)
      ∧ ((∀ e, r ≠ Raise e) → refusals w w' = [])).
    { intros l t Hrun. apply IH in Hrun as [Hlen Href]. simpl in Hlen.
      split; [lia|]. intros Hr. rewrite Hstep by done. by apply Href. }
    destruct (Contents response); [|destruct (length acc =? 0)];
      try destruct (IsTruncated response); simpl;
      try apply Hnext; intros [= <- <-];
      (split; [|intros _]); by apply Hstop.
  - intros [= <- <-]. split; [done|]. intros Hr. by destruct (Hr e).
  - done.
Qed.

(** X4. A listing is never partial.  Whatever failures the store has and
    whatever the fuel, when the listing mode of [get_object_list] returns a
    list at all, that list is the whole content of the folder; and when the
    store has answered a request of the listing with an error, on whatever
    page, the result is [False]. *)
Theorem get_object_list_never_partial (fuel : nat)
    (folder_name : option string) (w : World) :
  0 < page_cap w →
  (∀ l, (Bucket.get_object_list fuel folder_name false w).1
        = Ret (LObjects l) →
        l = contents folder_name (objects w))
  ∧ (refusals w (Bucket.get_object_list fuel folder_name false w).2 ≠ [] →
     (Bucket.get_object_list fuel folder_name false w).1 = Ret LFalse).
Proof.
  intros Hcap. split; [intros l; by apply listing_is_whole|].
  unfold Bucket.get_object_list, try_except, bind.
  destruct (Bucket.list_pages fuel folder_name false [] None w)
    as [r w1] eqn:Hloop.
  apply list_pages_refusals in Hloop as [_ Href].
  destruct r as [[res|fn l]|e|]; simpl.
  - intros Hne. by destruct Hne, Href.
  - destruct fn as [f|]; [destruct (truthy_str f)|];
      [destruct l as [|first rest]; [|destruct (Bucket.is_sentinel _ _)]|..];
      simpl; try done; intros Hne; destruct Hne; by apply Href.
  - done.
  - intros Hne. by destruct Hne, Href.
Qed.

Lemma get_object_list_never_partial_witness :
  (∀ l,
     (Bucket.get_object_list 5 (Some "a") false
        (Examples.world [("a/", EmptyString); ("a/x", "1"); ("a/y", "2")] 1
           [] [None; None; None])).1 = Ret (LObjects l) →
     l = [Client.summary ("a/x", Examples.file "1");
          Client.summary ("a/y", Examples.file "2")])
  ∧ (Bucket.get_object_list 5 (Some "a") false
       (Examples.world [("a/", EmptyString); ("a/x", "1"); ("a/y", "2")] 1
          [] [None; Some (ClientError "SlowDown")])).1 = Ret LFalse.
Proof.
  split.
  - refine (proj1 (get_object_list_never_partial 5 (Some "a")
              (Examples.world [("a/", EmptyString); ("a/x", "1"); ("a/y", "2")]
                 1 [] [None; None; None]) _)).
    vm_compute. lia.
  - refine (proj2 (get_object_list_never_partial 5 (Some "a")
              (Examples.world [("a/", EmptyString); ("a/x", "1"); ("a/y", "2")]
                 1 [] [None; Some (ClientError "SlowDown")]) _) _).
    + vm_compute. lia.
    + vm_compute. done.
Defined.

(** ** The metadata reader *)

(** X5. For a key that is not empty, when the store serves the head
    request, [get_file_metadata] returns [False] for a key that is absent
    and, for a key that is present, the four metadata fields of the stored
    object: the length and the entity tag of its content, its content type,
    and its modification time.  The time is the same instant, expressed at
    the offset that the zone of Kolkata has at that instant; it is the time
    as the store gave it when the time zone database does not have the
    zone or the local time leaves the range of [datetime]. *)
Theorem get_file_metadata_served (file_name : string) (w : World) :
  file_name ≠ EmptyString →
  (∀ e fs, faults w ≠ Some e :: fs) →
  match objects w !! file_name with
  | None => (Bucket.get_file_metadata file_name w).1 = Ret None
  | Some o =>
      ∃ d,
        (Bucket.get_file_metadata file_name w).1
        = Ret (Some {| LastModified := d;
                       ContentLength := String.length (Body o);
                       ContentType := ObjContentType o;
                       ETag := etag_of (Body o) |})
        ∧ utc_seconds d = utc_seconds (ObjLastModified o)
        ∧ match tzdata w !! "Asia/Kolkata" with
          | Some tz =>
              let t := utc_seconds (ObjLastModified o) in
              if bool_decide (datetime_min ≤ t + tz t ≤ datetime_max)%Z
              then utc_offset d = tz t
              else d = ObjLastModified o
          | None => d = ObjLastModified o
          end
  end.
Proof.
  intros Hk%truthy_str_true Hserved.
  unfold Bucket.get_file_metadata, change_timezone, pytz_timezone, astimezone.
  unfold try_except, bind, Client.head_object, Client.call.
  simpl. rewrite Hk.
  destruct (faults w) as [|[e|] fs] eqn:Hf; [|by destruct (Hserved e fs)|];
    simpl.
  all: destruct (objects w !! file_name) as [o|]; [|done]; simpl.
  all: destruct (tzdata w !! "Asia/Kolkata") as [tz|]; simpl;
    [destruct (bool_decide _); simpl|]; eexists; (split; [reflexivity|]);
    done.
Qed.

Lemma get_file_metadata_served_witness :
  ∃ d,
    (Bucket.get_file_metadata "a/x" Examples.with_sentinel).1
    = Ret (Some {| LastModified := d; ContentLength := 1;
                   ContentType := "text/plain"; ETag := "1" |})
    ∧ utc_seconds d = 0%Z
    ∧ utc_offset d = 19800%Z.
Proof.
  apply (get_file_metadata_served "a/x" Examples.with_sentinel); done.
Defined.



(** ** Uploads *)

(** X7. When [os.path.getsize] fails for the local path, [upload_file]
    stops before it turns to the store: no call is made to the client and
    the bucket is unchanged, whatever the remote name, the flag and the
    state of the store.  For [FileNotFoundError] the result is [False]; any
    other error (such as [NotADirectoryError] for a path below a regular
    file) is not caught and leaves [upload_file]. *)
Theorem upload_file_missing_local_file (file_path : string)
    (file_name : option string) (replace : bool) (w : World) (e : exn) :
  (os_path_getsize file_path w).1 = Raise e →
  ∃ w',
    Bucket.upload_file file_path file_name replace w
    = (match e with FileNotFoundError => Ret false | _ => Raise e end, w')
    ∧ requests w' = requests w ∧ objects w' = objects w
    ∧ faults w' = faults w.
Proof.
  unfold Bucket.upload_file, try_except, bind, os_path_getsize.
  destruct (disk w !! file_path); simpl; [done|]. intros [= <-].
  destruct (os_errors w !! file_path) as [[]|]; simpl; eauto.
Qed.

Lemma upload_file_missing_local_file_witness :
  (∃ w',
     Bucket.upload_file "/tmp/none" None true Examples.with_sentinel
       = (Ret false, w')
     ∧ requests w' = requests Examples.with_sentinel
     ∧ objects w' = objects Examples.with_sentinel
     ∧ faults w' = faults Examples.with_sentinel)
  ∧ (∃ w',
       Bucket.upload_file "/tmp/k/x" None true Examples.below_a_file
         = (Raise (OtherError "NotADirectoryError"), w')
       ∧ requests w' = requests Examples.below_a_file
       ∧ objects w' = objects Examples.below_a_file
       ∧ faults w' = faults Examples.below_a_file).
Proof.
  split.
  - apply (upload_file_missing_local_file "/tmp/none" None true
             Examples.with_sentinel FileNotFoundError).
    reflexivity.
  - apply (upload_file_missing_local_file "/tmp/k/x" None true
             Examples.below_a_file (OtherError "NotADirectoryError")).
    reflexivity.
Defined.

(** [upload_file] for a local file that is there: the probe, then the
    transfer unless the key is taken. *)
Lemma upload_file_found (file_path : string) (file_name : option string)
    (replace : bool) (w : World) (bytes : string) :
  disk w !! file_path = Some bytes →
  Bucket.upload_file file_path file_name replace w =
    (found <- Bucket.get_file_metadata
                (default (basename file_path) file_name) ;;
     let transfer :=
       try_except
         (Client.upload_file file_path
            (default (basename file_path) file_name)
            (ProgressPercentage file_path) ;;
          print (Text "File uploaded....") ;;
          ret true)
         (λ e, print (Text "File cannot be uplaoded") ;; ret false) in
     match found with
     | Some _ =>
         print (Text "A file with the same file_name already exists") ;;
         if negb replace then ret false else transfer
     | None => transfer
     end) (log_print (Text "File name / File Size") w).
Proof.
  intros Hd. unfold Bucket.upload_file, try_except, bind, os_path_getsize.
  rewrite Hd. by destruct file_name.
Qed.

(** The transfer that the store serves. *)
Lemma transfer_served (file_path key : string) (w w0 : World) (bytes : string) :
  key ≠ EmptyString → disk w !! file_path = Some bytes →
  (∀ e fs, faults w ≠ Some e :: fs) →
  objects w = objects w0 → now w = now w0 →
  ∃ w',
    try_except
      (Client.upload_file file_path key (ProgressPercentage file_path) ;;
       print (Text "File uploaded....") ;;
       ret true)
      (λ e, print (Text "File cannot be uplaoded") ;; ret false) w
    = (Ret true, w')
    ∧ objects w' = <[key := Client.stored bytes w0]> (objects w0)
    ∧ faults w' = tail (faults w) ∧ now w' = now w ∧ disk w' = disk w
    ∧ page_cap w' = page_cap w.
Proof.
  intros Hk%truthy_str_true Hd Hserved Ho Hnow.
  unfold try_except, bind, Client.upload_file, Client.call. simpl.
  rewrite Hk.
  destruct (faults w) as [|[e|] fs] eqn:Hfs; [|by destruct (Hserved e fs)|];
    simpl; rewrite Hd; simpl; eexists; (split; [reflexivity|]); simpl;
    unfold Client.stored; simpl; by rewrite Ho, Hnow, ?Hfs.
Qed.

(** An upload on a reliable store that finds the key free, or is allowed
    to replace it. *)
Lemma upload_file_reliable (file_path : string) (file_name : option string)
    (replace : bool) (w : World) (bytes : string) :
  faults w = [] → disk w !! file_path = Some bytes →
  default (basename file_path) file_name ≠ EmptyString →
  objects w !! default (basename file_path) file_name = None ∨ replace = true →
  ∃ w',
    Bucket.upload_file file_path file_name replace w = (Ret true, w')
    ∧ objects w' = <[default (basename file_path) file_name :=
                       Client.stored bytes w]> (objects w)
    ∧ faults w' = [] ∧ now w' = now w ∧ disk w' = disk w
    ∧ page_cap w' = page_cap w.
Proof.
  intros Hf Hd Hk Hfree.
  rewrite (upload_file_found _ _ _ _ bytes Hd).
  set (key := default (basename file_path) file_name) in *.
  set (w0 := log_print (Text "File name / File Size") w).
  assert (Hserved : ∀ e fs, faults w0 ≠ Some e :: fs) by (by simpl; rewrite Hf).
  destruct (objects w !! key) as [o|] eqn:Ho.
  - destruct Hfree as [?| ->]; [done|].
    destruct (get_file_metadata_present key w0 o Hk Hserved Ho)
      as (d & w1 & Hrun & _ & Ho1 & Hc1 & Hn1 & Hd1 & Hf1 & _).
    simpl in Ho1, Hc1, Hn1, Hd1, Hf1. rewrite Hf in Hf1.
    erewrite bind_Ret by exact Hrun. cbn [negb].
    erewrite bind_Ret by reflexivity.
    destruct (transfer_served file_path key
                (log_print
                   (Text "A file with the same file_name already exists") w1)
                w bytes)
      as (w' & -> & Ho' & Hf' & Hn' & Hd' & Hc'); try done.
    { simpl. by rewrite Hd1. } { simpl. by rewrite Hf1. }
    eexists. split; [reflexivity|]. simpl in *.
    by rewrite Ho', Hf', Hf1, Hn', Hn1, Hd', Hd1, Hc', Hc1.
  - destruct (get_file_metadata_absent key w0 Hk Hserved Ho)
      as (w1 & Hrun & Ho1 & Hc1 & Hn1 & Hd1 & Hf1 & _).
    simpl in Ho1, Hc1, Hn1, Hd1, Hf1. rewrite Hf in Hf1.
    erewrite bind_Ret by exact Hrun. cbv zeta.
    destruct (transfer_served file_path key w1 w bytes)
      as (w' & -> & Ho' & Hf' & Hn' & Hd' & Hc'); try done.
    { by rewrite Hd1. } { by rewrite Hf1. }
    eexists. split; [reflexivity|].
    by rewrite Ho', Hf', Hf1, Hn', Hn1, Hd', Hd1, Hc', Hc1.
Qed.

Lemma get_file_metadata_reliable (file_name : string) (w : World) (o : Object) :
  file_name ≠ EmptyString →
  faults w = [] → objects w !! file_name = Some o →
  ∃ md, (Bucket.get_file_metadata file_name w).1 = Ret (Some md)
        ∧ ContentLength md = String.length (Body o)
        ∧ ETag md = etag_of (Body o)
        ∧ ContentType md = ObjContentType o.
Proof.
  intros Hk Hf Ho.
  destruct (get_file_metadata_present file_name w o Hk) as (d & w' & -> & _);
    [by rewrite Hf|done|]. simpl. eauto.
Qed.

(** X8. On a reliable store, an upload under a key that is free (and not
    empty) stores the content of the local file under that key (the base
    name of the path when no name is given) and returns [True]; a metadata
    request for the key then reports the length and the entity tag of the
    file. *)
Theorem upload_file_then_metadata (file_path : string)
    (file_name : option string) (replace : bool) (w : World) (bytes : string) :
  faults w = [] → disk w !! file_path = Some bytes →
  default (basename file_path) file_name ≠ EmptyString →
  objects w !! default (basename file_path) file_name = None →
  ∃ w' md,
    Bucket.upload_file file_path file_name replace w = (Ret true, w')
    ∧ Body <$> objects w' !! default (basename file_path) file_name
      = Some bytes
    ∧ (Bucket.get_file_metadata (default (basename file_path) file_name) w').1
      = Ret (Some md)
    ∧ ContentLength md = String.length bytes
    ∧ ETag md = etag_of bytes.
Proof.
  intros Hf Hd Hk Hfree.
  destruct (upload_file_reliable file_path file_name replace w bytes)
    as (w' & Hrun & Ho & Hf' & _); [done|done|done|by left|].
  destruct (get_file_metadata_reliable
              (default (basename file_path) file_name) w'
              (Client.stored bytes w))
    as (md & Hmd & Hlen & Htag & _);
    [done|done|by rewrite Ho, lookup_insert_eq|].
  exists w', md. rewrite Ho, lookup_insert_eq. done.
Qed.

Lemma upload_file_then_metadata_witness :
  let w := Examples.world [] 1000 [("/home/me/report.txt", "hello")] [] in
  ∃ w' md,
    Bucket.upload_file "/home/me/report.txt" None false w = (Ret true, w')
    ∧ Body <$> objects w' !! "report.txt" = Some "hello"
    ∧ (Bucket.get_file_metadata "report.txt" w').1 = Ret (Some md)
    ∧ ContentLength md = 5
    ∧ ETag md = etag_of "hello".
Proof.
  apply (upload_file_then_metadata "/home/me/report.txt" None false
           (Examples.world [] 1000 [("/home/me/report.txt", "hello")] [])
           "hello");
    done.
Defined.

(** X9. The guard against overwriting rests on the metadata probe alone:
    when the store refuses the probe with a [ClientError] (whatever its
    code) and then serves the transfer, [upload_file] with
    [replace = False] uploads and returns [True], so that an object already
    stored under the key is replaced.  (The empty key never reaches the
    store: the client rejects the probe, the handler of
    [get_file_metadata] raises [AttributeError], which leaves
    [upload_file], and nothing is stored.) *)
Theorem upload_file_refused_probe (file_path : string)
    (file_name : option string) (w : World) (bytes code : string)
    (fs : list (option exn)) :
  faults w = Some (ClientError code) :: fs →
  (∀ e fs', fs ≠ Some e :: fs') →
  disk w !! file_path = Some bytes →
  let key := default (basename file_path) file_name in
  ∃ w',
    Bucket.upload_file file_path file_name false w
    = (if truthy_str key then Ret true else Raise AttributeError, w')
    ∧ objects w' = if truthy_str key
                   then <[key := Client.stored bytes w]> (objects w)
                   else objects w.
Proof.
  intros Hf Hserved Hd key.
  rewrite (upload_file_found _ _ _ _ bytes Hd). fold key.
  destruct (decide (key = EmptyString)) as [Hk|Hk].
  { rewrite Hk. erewrite bind_Raise by apply get_file_metadata_empty.
    simpl. eauto. }
  rewrite (truthy_str_true _ Hk).
  destruct (get_file_metadata_refused key
              (log_print (Text "File name / File Size") w)
              (ClientError code) fs Hk Hf)
    as (w1 & Hrun & Ho1 & _ & Hn1 & Hd1 & Hf1 & _).
  simpl in Ho1, Hn1, Hd1.
  erewrite bind_Ret by exact Hrun. cbv zeta.
  destruct (transfer_served file_path key w1 w bytes)
    as (w' & -> & Ho' & _); try done.
  { by rewrite Hd1. } { by rewrite Hf1. }
  eauto.
Qed.

Lemma upload_file_refused_probe_witness :
  let w := Examples.world [("k", "old")] 1000 [("/tmp/k", "new")]
             [Some (ClientError "403")] in
  ∃ w',
    Bucket.upload_file "/tmp/k" None false w = (Ret true, w')
    ∧ objects w' = <["k" := Client.stored "new" w]> (objects w).
Proof.
  apply (upload_file_refused_probe "/tmp/k" None
           (Examples.world [("k", "old")] 1000 [("/tmp/k", "new")]
              [Some (ClientError "403")])
           "new" "403" []);
    [reflexivity | done | reflexivity].
Defined.

(** ** Folders *)

(** X10. On a reliable store [create_folder] without [replace] is
    idempotent: it returns [True] and the folder is present afterwards; it
    writes nothing when the folder was present already, and a second call
    changes nothing and sends no write request. *)
Theorem create_folder_idempotent (fuel : nat) (folder_name : string) (w : World) :
  0 < fuel → faults w = [] → 0 < page_cap w →
  ∃ w1 w2,
    Bucket.create_folder fuel folder_name false w = (Ret true, w1)
    ∧ all_under (Some (with_slash folder_name)) (objects w1) ≠ []
    ∧ (all_under (Some (with_slash folder_name)) (objects w) ≠ [] →
       objects w1 = objects w)
    ∧ Bucket.create_folder fuel folder_name false w1 = (Ret true, w2)
    ∧ objects w2 = objects w1
    ∧ mutations (requests w2) = mutations (requests w1).
Proof.
  intros Hfuel Hf Hcap.
  destruct (create_folder_reliable fuel folder_name w Hfuel Hf Hcap)
    as (w1 & Hrun1 & Hf1 & Hcap1 & Hw1).
  assert (Hpresent : all_under (Some (with_slash folder_name)) (objects w1) ≠ []).
  { destruct (all_under_folder_key (with_slash folder_name) (objects w1))
      as (_ & -> & _); [apply with_slash_endswith|].
    destruct (all_under _ (objects w)) as [|a l] eqn:EL;
      destruct Hw1 as [Ho _]; rewrite Ho.
    - destruct (listing_sentinel_first (with_slash folder_name)
                  (<[with_slash folder_name := Client.stored EmptyString w]>
                     (objects w)) (Client.stored EmptyString w))
        as [rest ->]; [apply lookup_insert_eq|done].
    - destruct (all_under_folder_key (with_slash folder_name) (objects w))
        as (_ & <- & _); [apply with_slash_endswith|]. by rewrite EL. }
  destruct (create_folder_reliable fuel folder_name w1 Hfuel Hf1)
    as (w2 & Hrun2 & _ & _ & Hw2); [lia|].
  exists w1, w2. split; [done|]. split; [done|]. split.
  { intros Hw. destruct (all_under _ (objects w)); [done|]. apply Hw1. }
  split; [done|].
  destruct (all_under _ (objects w1)); [done|]. done.
Qed.

Lemma create_folder_idempotent_witness :
  ∃ w1 w2,
    Bucket.create_folder 1 "new" false Examples.with_sentinel = (Ret true, w1)
    ∧ all_under (Some (with_slash "new")) (objects w1) ≠ []
    ∧ (all_under (Some (with_slash "new")) (objects Examples.with_sentinel) ≠ []
       → objects w1 = objects Examples.with_sentinel)
    ∧ Bucket.create_folder 1 "new" false w1 = (Ret true, w2)
    ∧ objects w2 = objects w1
    ∧ mutations (requests w2) = mutations (requests w1).
Proof.
  apply (create_folder_idempotent 1 "new" Examples.with_sentinel);
    [lia | reflexivity | vm_compute; lia].
Defined.

(** ** Deleting and moving files *)

(** X11. For a file key (one that is not empty and does not end in
    ['/']), [delete_object] sends one delete request, whatever the store
    does.  It returns [True] exactly when the store serves the request, and
    then the key is gone; when the request fails it returns [False] and the
    bucket is as before. *)
Theorem delete_object_file (fuel : nat) (key : string) (w : World) :
  endswith key "/" = false → key ≠ EmptyString →
  ∃ b w',
    Bucket.delete_object fuel key w = (Ret b, w')
    ∧ requests w' = requests w ++ [ReqDelete key]
    ∧ objects w' = (if b then delete key (objects w) else objects w)
    ∧ (b = true ↔ ∀ e fs, faults w ≠ Some e :: fs).
Proof.
  intros Hfile Hk%truthy_str_true.
  unfold Bucket.delete_object, try_except, bind, Client.delete_object,
    Client.call.
  rewrite Hfile. simpl. rewrite Hk.
  destruct (faults w) as [|[e|] fs]; simpl; eexists _, _;
    (split; [reflexivity|]); simpl; (split; [done|]); (split; [done|]).
  - done.
  - split; [done|]. intros H. by destruct (H e fs).
  - done.
Qed.

Lemma delete_object_file_witness :
  ∃ b w',
    Bucket.delete_object 0 "a/x" Examples.with_sentinel = (Ret b, w')
    ∧ requests w' = requests Examples.with_sentinel ++ [ReqDelete "a/x"]
    ∧ objects w' = (if b then delete "a/x" (objects Examples.with_sentinel)
                    else objects Examples.with_sentinel)
    ∧ (b = true ↔ ∀ e fs, faults Examples.with_sentinel ≠ Some e :: fs).
Proof.
  apply (delete_object_file 0 "a/x" Examples.with_sentinel);
    [reflexivity | done].
Defined.

(** A served move of a file key. *)
Lemma move_file_reliable (fuel : nat) (old_name new_name : string) (w : World)
    (o : Object) :
  faults w = [] → objects w !! old_name = Some o →
  endswith old_name "/" = false →
  old_name ≠ EmptyString → new_name ≠ EmptyString → old_name ≠ new_name →
  ∃ w',
    Bucket.move_file fuel old_name new_name w = (Ret true, w')
    ∧ objects w' =
        delete old_name (<[new_name := copied o (now w)]> (objects w))
    ∧ faults w' = [] ∧ now w' = now w ∧ page_cap w' = page_cap w
    ∧ disk w' = disk w.
Proof.
  intros Hf Ho Hfile Hold%truthy_str_true Hnew%truthy_str_true Hne.
  unfold Bucket.move_file, Bucket.delete_object, try_except, bind,
    Client.copy_object, Client.delete_object, Client.call.
  rewrite Hfile. simpl.
  rewrite Hold, Hnew, Hf, Ho, (eqb_false _ _ Hne). simpl. rewrite Hf. simpl.
  eexists. split; [reflexivity|]. done.
Qed.

(** X12. On a reliable store, moving a file to another key (both keys
    not empty) returns [True]; afterwards the old key is absent, the new key
    holds the content and the content type of the object, and every other
    key is as before. *)
Theorem move_file_moves (fuel : nat) (old_name new_name : string) (w : World)
    (o : Object) :
  faults w = [] → objects w !! old_name = Some o →
  endswith old_name "/" = false → old_name ≠ new_name →
  old_name ≠ EmptyString → new_name ≠ EmptyString →
  ∃ w',
    Bucket.move_file fuel old_name new_name w = (Ret true, w')
    ∧ objects w' !! old_name = None
    ∧ objects w' !! new_name = Some (copied o (now w))
    ∧ Body (copied o (now w)) = Body o
    ∧ ObjContentType (copied o (now w)) = ObjContentType o
    ∧ (∀ k, k ≠ old_name → k ≠ new_name → objects w' !! k = objects w !! k).
Proof.
  intros Hf Ho Hfile Hne Hold Hnew.
  destruct (move_file_reliable fuel old_name new_name w o)
    as (w' & Hrun & Hobj & _); [done..|].
  exists w'. rewrite Hobj. split; [done|].
  split; [apply lookup_delete_eq|].
  split; [by rewrite lookup_delete_ne, lookup_insert_eq|].
  do 2 (split; [done|]). intros k Hk1 Hk2.
  by rewrite lookup_delete_ne, lookup_insert_ne.
Qed.

Lemma move_file_moves_witness :
  ∃ w',
    Bucket.move_file 0 "a/x" "b/x" Examples.with_sentinel = (Ret true, w')
    ∧ objects w' !! "a/x" = None
    ∧ objects w' !! "b/x"
      = Some (copied (Examples.file "1") (now Examples.with_sentinel))
    ∧ Body (copied (Examples.file "1") (now Examples.with_sentinel))
      = Body (Examples.file "1")
    ∧ ObjContentType (copied (Examples.file "1") (now Examples.with_sentinel))
      = ObjContentType (Examples.file "1")
    ∧ (∀ k, k ≠ "a/x" → k ≠ "b/x" →
            objects w' !! k = objects Examples.with_sentinel !! k).
Proof.
  apply (move_file_moves 0 "a/x" "b/x" Examples.with_sentinel
           (Examples.file "1"));
    [reflexivity | reflexivity | reflexivity | done | done | done].
Defined.

(** X13. On a reliable store, moving a file to a free key and back again
    (both keys not empty) restores the bucket up to the modification time
    of the file: the file is under its old key with its content and content
    type, the other key is free again, and nothing else has changed. *)
Theorem move_file_round_trip (fuel : nat) (a b : string) (w : World) (o : Object) :
  faults w = [] → objects w !! a = Some o → objects w !! b = None →
  endswith a "/" = false → endswith b "/" = false →
  a ≠ EmptyString → b ≠ EmptyString →
  ∃ w1 w2,
    Bucket.move_file fuel a b w = (Ret true, w1)
    ∧ Bucket.move_file fuel b a w1 = (Ret true, w2)
    ∧ objects w2 = <[a := copied o (now w)]> (objects w).
Proof.
  intros Hf Ha Hb Hfa Hfb Hea Heb.
  assert (Hne : a ≠ b) by congruence.
  destruct (move_file_reliable fuel a b w o)
    as (w1 & Hrun1 & Hobj1 & Hf1 & Hnow1 & _); [done..|].
  destruct (move_file_reliable fuel b a w1 (copied o (now w)))
    as (w2 & Hrun2 & Hobj2 & _); [done| |done..|].
  { by rewrite Hobj1, lookup_delete_ne, lookup_insert_eq. }
  exists w1, w2. do 2 (split; [done|]).
  rewrite Hobj2, Hobj1, Hnow1. apply map_eq. intros k.
  destruct (decide (k = b)) as [->|Hkb].
  { rewrite lookup_delete_eq, lookup_insert_ne by done. by rewrite Hb. }
  rewrite lookup_delete_ne by done.
  destruct (decide (k = a)) as [->|Hka].
  { by rewrite !lookup_insert_eq. }
  rewrite !lookup_insert_ne by done.
  by rewrite lookup_delete_ne, lookup_insert_ne.
Qed.

Lemma move_file_round_trip_witness :
  ∃ w1 w2,
    Bucket.move_file 0 "a/x" "b/x" Examples.with_sentinel = (Ret true, w1)
    ∧ Bucket.move_file 0 "b/x" "a/x" w1 = (Ret true, w2)
    ∧ objects w2
      = <["a/x" := copied (Examples.file "1") (now Examples.with_sentinel)]>
          (objects Examples.with_sentinel).
Proof.
  apply (move_file_round_trip 0 "a/x" "b/x" Examples.with_sentinel
           (Examples.file "1"));
    done.
Defined.

(** X14. Moving a key that is absent fails on the copy: on a reliable
    store [move_file] (for keys that are not empty) returns [False], the
    copy is the only request sent (no delete follows), and the bucket is
    unchanged. *)
Theorem move_file_missing_source (fuel : nat) (old_name new_name : string)
    (w : World) :
  faults w = [] → objects w !! old_name = None →
  old_name ≠ EmptyString → new_name ≠ EmptyString →
  ∃ w',
    Bucket.move_file fuel old_name new_name w = (Ret false, w')
    ∧ requests w' = requests w ++ [ReqCopy old_name new_name]
    ∧ objects w' = objects w.
Proof.
  intros Hf Ho _ Hnew%truthy_str_true.
  unfold Bucket.move_file, try_except, bind, Client.copy_object, Client.call.
  simpl. rewrite Hnew, Hf, Ho. simpl. eauto.
Qed.

Lemma move_file_missing_source_witness :
  ∃ w',
    Bucket.move_file 0 "nope" "b" Examples.with_sentinel = (Ret false, w')
    ∧ requests w' = requests Examples.with_sentinel ++ [ReqCopy "nope" "b"]
    ∧ objects w' = objects Examples.with_sentinel.
Proof.
  apply (move_file_missing_source 0 "nope" "b" Examples.with_sentinel);
    done.
Defined.

(** ** Prefixes and destination keys *)

Lemma prefix_split (p s : string) :
  String.prefix p s = true → s = p +:+ drop_chars (String.length p) s.
Proof.
  revert s. induction p as [|a p IH]; intros [|b s] H; simpl in *; try done.
  destruct (Ascii.ascii_dec a b) as [->|]; [|done].
  change (String b s = String b (p +:+ drop_chars (String.length p) s)).
  f_equal. by apply IH.
Qed.

(** Two prefixes of one string: one of them is a prefix of the other. *)
Lemma prefix_comparable (p q s : string) :
  String.prefix p s = true → String.prefix q s = true →
  String.prefix p q = true ∨ String.prefix q p = true.
Proof.
  revert p q. induction s as [|c s IH]; intros [|a p] [|b q] Hp Hq;
    simpl in *; auto; try done.
  destruct (Ascii.ascii_dec a c) as [->|]; [|done].
  destruct (Ascii.ascii_dec b c) as [->|]; [|done].
  destruct (Ascii.ascii_dec c c); [|done]. by apply IH.
Qed.

Lemma prefix_trans (p q s : string) :
  String.prefix p q = true → String.prefix q s = true →
  String.prefix p s = true.
Proof.
  revert q s. induction p as [|a p IH]; intros [|b q] [|c s] Hp Hq;
    simpl in *; try done.
  destruct (Ascii.ascii_dec a b) as [->|]; [|done].
  destruct (Ascii.ascii_dec b c) as [->|]; [|done]. by eapply IH.
Qed.

(** Keys under two prefixes of which neither extends the other are
    different. *)
Lemma prefix_apart (p q k k' : string) :
  String.prefix p q = false → String.prefix q p = false →
  String.prefix p k = true → String.prefix q k' = true → k ≠ k'.
Proof.
  intros Hpq Hqp Hk Hk' <-.
  destruct (prefix_comparable p q k Hk Hk'); congruence.
Qed.

Lemma replace_first_inj (a b old new : string) :
  String.prefix old a = true → String.prefix old b = true →
  replace_first a old new = replace_first b old new → a = b.
Proof.
  intros Ha Hb. rewrite !replace_first_prefix by done.
  intros E%(inj (String.append new)).
  rewrite (prefix_split old a Ha), (prefix_split old b Hb). by f_equal.
Qed.

Lemma replace_first_under (k old new : string) :
  String.prefix old k = true → String.prefix new (replace_first k old new) = true.
Proof. intros H. rewrite replace_first_prefix by done. apply prefix_app. Qed.

(** ** Folders that hold their sentinel only *)

Lemma listing_only_sentinel (p : string) (m : gmap string Object) (o : Object) :
  m !! p = Some o →
  (∀ k, is_Some (m !! k) → String.prefix p k = true → k = p) →
  Client.listing p m = [Client.summary (p, o)].
Proof.
  intros Hp Honly. destruct (listing_sentinel_first p m o Hp) as [rest E].
  rewrite E. f_equal. apply elem_of_nil_inv. intros s Hs.
  pose proof (listing_NoDup_keys p m) as Hnd.
  rewrite E, fmap_cons in Hnd. apply NoDup_cons in Hnd as [Hfirst _].
  apply Hfirst. simpl.
  assert (Hin : s ∈ Client.listing p m) by (rewrite E; by right).
  apply elem_of_listing in Hin as (o' & Ho' & _ & Hpre).
  rewrite <- (Honly (Key s)) by eauto.
  apply list_elem_of_fmap. eauto.
Qed.

(** The listings of two buckets that agree under a prefix have the same
    length. *)
Lemma listing_length_agree (p : string) (m m' : gmap string Object) :
  (∀ k, String.prefix p k = true → is_Some (m !! k) ↔ is_Some (m' !! k)) →
  length (Client.listing p m) = length (Client.listing p m').
Proof.
  intros Hagree. rewrite <- !(length_fmap Key).
  apply Permutation_length, NoDup_Permutation;
    [apply listing_NoDup_keys..|].
  intros k. rewrite !elem_of_listing_keys.
  split; intros [Hm Hp]; (split; [by apply (Hagree k Hp)|done]).
Qed.

(** ** Purging a folder, then deleting it *)

Lemma delete_folder_data_reliable (fuel : nat) (folder_name : string) (w : World)
    (c : ObjectSummary) (cs : list ObjectSummary) :
  faults w = [] → 0 < page_cap w →
  contents (Some (with_slash folder_name)) (objects w) = c :: cs →
  length (c :: cs) + 1 < fuel →
  ∃ w',
    Bucket.delete_folder_data fuel folder_name w = (Ret true, w')
    ∧ objects w' = foldr delete (objects w) (Key <$> c :: cs)
    ∧ faults w' = [] ∧ page_cap w' = page_cap w.
Proof.
  intros Hf Hcap Hc Hfuel.
  pose proof (all_under_length (Some (with_slash folder_name)) (objects w)) as Hlen.
  rewrite Hc in Hlen.
  destruct (get_object_list_reliable fuel (Some (with_slash folder_name)) w)
    as (w1 & Hrun & Hw1 & _); [done|done|lia|].
  unfold Bucket.delete_folder_data, try_except, bind. rewrite Hrun.
  destruct (all_under _ (objects w)) as [|first rest] eqn:EL.
  { unfold contents in Hc. rewrite EL in Hc.
    by destruct (prefix_param _). }
  assert (Hvalid : forallb truthy_str (Key <$> c :: cs) = true).
  { rewrite <- Hc. apply contents_valid, with_slash_truthy. }
  rewrite Hc. simpl. unfold Client.delete_objects.
  rewrite call_reliable;
    [|exact Hvalid|by rewrite (same_faults _ _ Hw1)].
  simpl. eexists. split; [reflexivity|]. simpl.
  by rewrite (same_objects _ _ Hw1), (same_faults _ _ Hw1),
    (same_page_cap _ _ Hw1).
Qed.

(** X15. On a reliable store, a folder that holds its sentinel and some
    content is gone after [delete_folder_data] followed by [delete_object]:
    both return [True], no key is left under the prefix, and every key
    outside the prefix is as before. *)
Theorem purge_then_delete_folder (fuel : nat) (folder_name : string) (w : World)
    (o : Object) :
  let folder := with_slash folder_name in
  faults w = [] → 0 < page_cap w →
  objects w !! folder = Some o →
  contents (Some folder) (objects w) ≠ [] →
  length (contents (Some folder) (objects w)) + 1 < fuel →
  ∃ w1 w2,
    Bucket.delete_folder_data fuel folder_name w = (Ret true, w1)
    ∧ Bucket.delete_object fuel folder w1 = (Ret true, w2)
    ∧ all_under (Some folder) (objects w2) = []
    ∧ (∀ k, String.prefix folder k = false → objects w2 !! k = objects w !! k).
Proof.
  intros folder Hf Hcap Hsent Hne Hfuel.
  pose proof (with_slash_endswith folder_name) as Hend. fold folder in Hend.
  destruct (contents (Some folder) (objects w)) as [|c cs] eqn:Ec; [done|].
  destruct (delete_folder_data_reliable fuel folder_name w c cs)
    as (w1 & Hrun1 & Ho1 & Hf1 & Hcap1); [done..|].
  assert (Hlook : ∀ k, objects w1 !! k =
            if decide (inside (Some folder) k) then None else objects w !! k).
  { intros k. rewrite Ho1, lookup_foldr_delete, <- Ec.
    destruct (decide (inside (Some folder) k)) as [Hin|Hout].
    - destruct (objects w !! k) as [o'|] eqn:Ho'; [|by destruct (decide _)].
      rewrite decide_True; [done|]. apply elem_of_contents_keys. eauto.
    - rewrite decide_False; [done|]. by intros [_ ?]%elem_of_contents_keys. }
  assert (Hinside : ∀ k, inside (Some folder) k ↔
                         String.prefix folder k = true ∧ k ≠ folder).
  { intros k. unfold inside.
    by rewrite (proj1 (all_under_folder_key folder (objects w) Hend)). }
  destruct (all_under_folder_key folder (objects w1) Hend) as (_ & EL1 & _).
  assert (Hone : all_under (Some folder) (objects w1)
                 = [Client.summary (folder, o)]).
  { rewrite EL1. apply listing_only_sentinel.
    - rewrite Hlook, decide_False; [done|]. rewrite Hinside. by intros [_ ?].
    - intros k Hk Hp. rewrite Hlook in Hk.
      destruct (decide (inside (Some folder) k)) as [|Hout];
        [by destruct Hk|].
      rewrite Hinside in Hout. destruct (decide (k = folder)); [done|].
      by destruct Hout. }
  destruct (delete_object_single_key fuel folder w1
              (Client.summary (folder, o)))
    as (w2 & Hrun2 & Ho2); [done|lia|done|lia|done|].
  exists w1, w2. do 2 (split; [done|]). split.
  - destruct (all_under_folder_key folder (objects w2) Hend) as (_ & -> & _).
    apply listing_nil. intros k Hk. rewrite Ho2 in Hk.
    destruct (String.prefix folder k) eqn:Hp; [|done].
    destruct (decide (k = folder)) as [->|Hkf].
    { rewrite lookup_delete_eq in Hk. by destruct Hk. }
    rewrite lookup_delete_ne, Hlook, decide_True in Hk by (by rewrite ?Hinside).
    by destruct Hk.
  - intros k Hk. rewrite Ho2, lookup_delete_ne, Hlook.
    + rewrite decide_False; [done|]. rewrite Hinside. intros [? _]. congruence.
    + intros <-. by rewrite prefix_refl in Hk.
Qed.

Lemma purge_then_delete_folder_witness :
  ∃ w1 w2,
    Bucket.delete_folder_data 5 "f" Examples.folder_with_file = (Ret true, w1)
    ∧ Bucket.delete_object 5 "f/" w1 = (Ret true, w2)
    ∧ all_under (Some "f/") (objects w2) = []
    ∧ (∀ k, String.prefix "f/" k = false →
            objects w2 !! k = objects Examples.folder_with_file !! k).
Proof.
  apply (purge_then_delete_folder 5 "f" Examples.folder_with_file
           (Examples.file EmptyString));
    [reflexivity | vm_compute; lia | reflexivity | vm_compute; done
    | vm_compute; lia].
Defined.

(** ** Moving a folder *)

(** The loop of [move_folder] on a reliable store, for objects that are
    files under the source prefix: each is moved to its destination key. *)
Lemma move_loop (fuel : nat) (src dst : string) (l : list ObjectSummary) :
  String.prefix src dst = false → String.prefix dst src = false →
  truthy_str src = true → truthy_str dst = true →
  NoDup (Key <$> l) →
  ∀ w,
    faults w = [] →
    (∀ s, s ∈ l → String.prefix src (Key s) = true
                  ∧ endswith (Key s) "/" = false
                  ∧ is_Some (objects w !! Key s)) →
    ∃ w',
      for_each l (λ obj,
        let old_key := Key obj in
        let new_key := replace_first old_key src dst in
        _ <- Bucket.move_file fuel old_key new_key ;; ret tt) w = (Ret tt, w')
      ∧ faults w' = [] ∧ page_cap w' = page_cap w
      ∧ (∀ s, s ∈ l → objects w' !! Key s = None)
      ∧ (∀ s o, s ∈ l → objects w !! Key s = Some o →
           ∃ o', objects w' !! replace_first (Key s) src dst = Some o'
                 ∧ Body o' = Body o ∧ ObjContentType o' = ObjContentType o)
      ∧ (∀ k, k ∉ Key <$> l →
              k ∉ (λ s, replace_first (Key s) src dst) <$> l →
              objects w' !! k = objects w !! k).
Proof.
  intros Hsd Hds Hsrc Hdst. induction l as [|s l IH]; intros Hnd w Hf Hl.
  { exists w. simpl. split; [done|]. do 2 (split; [done|]).
    split; [by intros s ?%elem_of_nil|].
    split; [by intros s o ?%elem_of_nil|done]. }
  rewrite fmap_cons in Hnd. apply NoDup_cons in Hnd as [Hs Hnd].
  destruct (Hl s) as (Hp & Hfile & [o Ho]); [by left|].
  assert (Hapart : ∀ x y, String.prefix src (Key x) = true →
            String.prefix src (Key y) = true →
            Key x ≠ replace_first (Key y) src dst).
  { intros x y Hx Hy. eapply prefix_apart; [exact Hsd|exact Hds|done|].
    by apply replace_first_under. }
  destruct (move_file_reliable fuel (Key s) (replace_first (Key s) src dst) w o)
    as (w1 & Hrun & Hobj & Hf1 & _ & Hcap1 & _); [done..| | |by apply Hapart|].
  { intros E. apply (prefix_truthy _ _ Hp) in Hsrc. by rewrite E in Hsrc. }
  { intros E. pose proof (replace_first_under _ _ dst Hp) as Hp'.
    apply (prefix_truthy _ _ Hp') in Hdst. by rewrite E in Hdst. }
  assert (Hw1 : ∀ k, k ≠ Key s → k ≠ replace_first (Key s) src dst →
                     objects w1 !! k = objects w !! k).
  { intros k ??. by rewrite Hobj, lookup_delete_ne, lookup_insert_ne. }
  assert (Hkey : ∀ x, x ∈ l → Key x ≠ Key s).
  { intros x Hx E. apply Hs, list_elem_of_fmap. eauto. }
  assert (Hpre : ∀ x, x ∈ l → String.prefix src (Key x) = true).
  { intros x Hx. apply Hl. by right. }
  destruct (IH Hnd w1 Hf1) as (w' & Hloop & Hf' & Hcap' & HA & HB & HC).
  { intros x Hx. destruct (Hl x) as (? & ? & ?); [by right|].
    do 2 (split; [done|]). rewrite Hw1; [done|by apply Hkey|].
    by apply Hapart; auto. }
  assert (Hs_dest : Key s ∉ (λ x, replace_first (Key x) src dst) <$> l).
  { intros (x & E & Hx)%list_elem_of_fmap. by eapply (Hapart s x); auto. }
  assert (Hd_keys : replace_first (Key s) src dst ∉ Key <$> l).
  { intros (x & E & Hx)%list_elem_of_fmap. eapply (Hapart x s); auto. }
  assert (Hd_dest : replace_first (Key s) src dst
                    ∉ (λ x, replace_first (Key x) src dst) <$> l).
  { intros (x & E & Hx)%list_elem_of_fmap.
    apply replace_first_inj in E; auto. by eapply Hkey. }
  exists w'. split.
  { cbn [for_each]. erewrite bind_Ret; [exact Hloop|].
    by erewrite bind_Ret by exact Hrun. }
  split; [done|]. split; [congruence|]. split; [|split].
  - intros x [->|Hx]%elem_of_cons; [|by apply HA].
    rewrite HC by done. rewrite Hobj. apply lookup_delete_eq.
  - intros x o0 [->|Hx]%elem_of_cons Hx0.
    + exists (copied o (now w)). rewrite HC by done.
      rewrite Hobj, lookup_delete_ne, lookup_insert_eq
        by (intros E; by eapply (Hapart s s)).
      by simplify_eq.
    + apply HB; [done|]. rewrite Hw1; [done|by apply Hkey|].
      by apply Hapart; auto.
  - intros k Hk1 Hk2. rewrite !fmap_cons in *.
    apply not_elem_of_cons in Hk1 as [? ?], Hk2 as [? ?].
    rewrite HC by done. by apply Hw1.
Qed.

(** [move_folder] on a reliable store, for a source folder whose content
    consists of files and a destination apart from it. *)
Lemma move_folder_flat (fuel : nat) (old_name new_name : string) (w : World) :
  let src := with_slash old_name in
  let dst := with_slash new_name in
  faults w = [] → 0 < page_cap w →
  length (all_under (Some src) (objects w)) < fuel →
  String.prefix src dst = false → String.prefix dst src = false →
  (∀ k, is_Some (objects w !! k) → inside (Some src) k →
        endswith k "/" = false) →
  ∃ w',
    Bucket.move_folder fuel old_name new_name w =
      (Ret (match objects w !! src with
            | Some _ => None
            | None => Some false
            end), w')
    ∧ all_under (Some src) (objects w') = []
    ∧ (∀ k o, objects w !! k = Some o → inside (Some src) k →
         ∃ o', objects w' !! replace_first k src dst = Some o'
               ∧ Body o' = Body o ∧ ObjContentType o' = ObjContentType o).
Proof.
  intros src dst Hf Hcap Hfuel Hsd Hds Hflat.
  pose proof (with_slash_endswith old_name) as Hend. fold src in Hend.
  assert (Hinside : ∀ k, inside (Some src) k ↔
                         String.prefix src k = true ∧ k ≠ src).
  { intros k. unfold inside.
    by rewrite (proj1 (all_under_folder_key src (objects w) Hend)). }
  assert (Hsrc_dst : ∀ k, String.prefix src k = true → k ≠ dst).
  { intros k Hk ->. congruence. }
  (* the destination folder *)
  destruct (create_folder_reliable fuel dst w) as
    (w1 & Hrun1 & Hf1 & Hcap1 & Hw1); [lia|done|done|].
  pose proof (with_slash_idemp new_name) as Hid. fold dst in Hid.
  rewrite Hid in Hw1.
  assert (Hm1 : ∀ k, k ≠ dst → objects w1 !! k = objects w !! k).
  { intros k Hk. destruct (all_under (Some dst) (objects w));
      destruct Hw1 as [-> _]; [by rewrite lookup_insert_ne|done]. }
  (* the listing of the source *)
  destruct (all_under_folder_key src (objects w) Hend) as (_ & EL & _).
  destruct (all_under_folder_key src (objects w1) Hend) as (_ & EL1 & _).
  assert (Hlen : length (all_under (Some src) (objects w1))
                 = length (all_under (Some src) (objects w))).
  { rewrite EL, EL1. apply listing_length_agree. intros k Hk.
    by rewrite Hm1 by by apply Hsrc_dst. }
  destruct (get_object_list_reliable fuel (Some src) w1)
    as (w2 & Hrun2 & Hw2 & _ & _); [done|lia|lia|].
  set (l := contents (Some src) (objects w1)) in *.
  assert (Hl : ∀ k, k ∈ Key <$> l ↔ is_Some (objects w !! k) ∧ inside (Some src) k).
  { intros k. unfold l. rewrite elem_of_contents_keys. split.
    - intros [Hk Hin]. split; [|done]. rewrite <- Hm1; [done|].
      apply Hsrc_dst, Hinside, Hin.
    - intros [Hk Hin]. split; [|done]. rewrite Hm1; [done|].
      apply Hsrc_dst, Hinside, Hin. }
  assert (Hsent1 : objects w1 !! src = objects w !! src).
  { apply Hm1, Hsrc_dst, prefix_refl. }
  unfold Bucket.move_folder. fold src dst.
  rewrite EL1 in Hrun2. clear EL1 Hlen.
  destruct (Client.listing src (objects w1)) as [|first rest] eqn:E1.
  { (* nothing under the source *)
    pose proof (proj1 (listing_nil src (objects w1)) E1) as Hnil.
    assert (Hnone : objects w1 !! src = None).
    { specialize (Hnil src). destruct (objects w1 !! src); [|done].
      rewrite prefix_refl in Hnil. by discriminate Hnil. }
    rewrite <- Hsent1, Hnone.
    erewrite try_Raise.
    2:{ erewrite bind_Ret by exact Hrun1. cbn [negb].
        erewrite bind_Ret by reflexivity.
        erewrite bind_Ret by exact Hrun2. reflexivity. }
    eexists. split; [reflexivity|]. simpl.
    rewrite (same_objects _ _ Hw2). split.
    { by rewrite (proj1 (proj2 (all_under_folder_key src (objects w1) Hend))). }
    intros k o Hk Hin. exfalso.
    assert (Hkl : k ∈ Key <$> l) by (apply Hl; eauto).
    apply elem_of_contents_keys in Hkl as [Hk1 [Hp _]%Hinside].
    specialize (Hnil k Hk1). congruence. }
  (* the loop *)
  assert (Hw2o : ∀ k, String.prefix src k = true →
                      objects w2 !! k = objects w !! k).
  { intros k Hk. rewrite (same_objects _ _ Hw2). by apply Hm1, Hsrc_dst. }
  assert (Hl_in : ∀ s, s ∈ l → is_Some (objects w !! Key s)
                                 ∧ String.prefix src (Key s) = true
                                 ∧ Key s ≠ src).
  { intros s Hs. rewrite <- Hinside. apply Hl, list_elem_of_fmap. eauto. }
  destruct (move_loop fuel src dst l Hsd Hds) with (w := w2)
    as (w3 & Hloop & Hf3 & Hcap3 & HA & HB & HC).
  { apply with_slash_truthy. }
  { apply with_slash_truthy. }
  { apply contents_NoDup_keys. }
  { by rewrite (same_faults _ _ Hw2). }
  { intros s Hs. destruct (Hl_in s Hs) as (Hk & Hp & Hne).
    split; [done|]. split; [apply Hflat; [done|by apply Hinside]|].
    by rewrite Hw2o. }
  assert (Hnot_dest : ∀ k, String.prefix src k = true →
            k ∉ (λ s, replace_first (Key s) src dst) <$> l).
  { intros k Hk (s & E & Hs)%list_elem_of_fmap.
    destruct (Hl_in s Hs) as (_ & Hp & _).
    eapply (prefix_apart src dst k); [done..| |exact E].
    by apply replace_first_under. }
  assert (Honly : ∀ k, is_Some (objects w3 !! k) →
                       String.prefix src k = true → k = src).
  { intros k Hk Hp. destruct (decide (k = src)) as [|Hne]; [done|]. exfalso.
    destruct (decide (k ∈ Key <$> l)) as [Hin|Hnin].
    - apply list_elem_of_fmap in Hin as (s & -> & Hs).
      rewrite HA in Hk by done. by destruct Hk.
    - rewrite HC, Hw2o in Hk by auto. apply Hnin, Hl. by rewrite Hinside. }
  assert (Hsent3 : objects w3 !! src = objects w !! src).
  { rewrite HC, Hw2o; [done|apply prefix_refl| |apply Hnot_dest, prefix_refl].
    intros (s & E & Hs)%list_elem_of_fmap.
    destruct (Hl_in s Hs) as (_ & _ & Hne). done. }
  assert (Hmoved : ∀ k o, objects w !! k = Some o → inside (Some src) k →
            ∃ o', objects w3 !! replace_first k src dst = Some o'
                  ∧ Body o' = Body o ∧ ObjContentType o' = ObjContentType o).
  { intros k o Hk Hin.
    assert (Hkl : k ∈ Key <$> l) by (apply Hl; eauto).
    apply list_elem_of_fmap in Hkl as (s & -> & Hs).
    apply HB; [done|]. rewrite Hw2o; [done|]. by apply Hinside. }
  assert (Hdest_src : ∀ k, inside (Some src) k → replace_first k src dst ≠ src).
  { intros k [Hp _]%Hinside E.
    eapply (prefix_apart src dst src (replace_first k src dst));
      [done|done|apply prefix_refl|by apply replace_first_under|done]. }
  destruct (all_under_folder_key src (objects w3) Hend) as (_ & EL3 & _).
  assert (Hcap3' : 0 < page_cap w3).
  { by rewrite Hcap3, (same_page_cap _ _ Hw2), Hcap1. }
  destruct (objects w !! src) as [o|] eqn:Hsent.
  - (* the source has its sentinel: it is deleted at the end *)
    destruct (delete_object_single_key fuel src w3 (Client.summary (src, o)))
      as (w4 & Hrun4 & Ho4); [done|lia|done|done| |].
    { rewrite EL3. by apply listing_only_sentinel. }
    erewrite try_Ret.
    2:{ erewrite bind_Ret by exact Hrun1. cbn [negb].
        erewrite bind_Ret by reflexivity.
        erewrite bind_Ret by exact Hrun2.
        erewrite bind_Ret by reflexivity.
        erewrite bind_Ret by exact Hloop.
        erewrite bind_Ret by exact Hrun4. reflexivity. }
    eexists. split; [reflexivity|]. rewrite Ho4. split.
    + destruct (all_under_folder_key src (delete src (objects w3)) Hend)
        as (_ & -> & _).
      apply listing_nil. intros k Hk.
      destruct (String.prefix src k) eqn:Hp; [|done].
      destruct (decide (k = src)) as [->|Hne].
      { rewrite lookup_delete_eq in Hk. by destruct Hk. }
      rewrite lookup_delete_ne in Hk by done. by destruct Hne; apply Honly.
    + intros k o0 Hk Hin. destruct (Hmoved k o0 Hk Hin) as (o' & Ho' & ?).
      exists o'. split; [|done].
      rewrite lookup_delete_ne; [done|]. intros E. by eapply Hdest_src.
  - (* the source has no sentinel: the final delete finds nothing *)
    destruct (delete_object_absent_folder fuel src w3)
      as (w4 & Hrun4 & Hw4); [done|lia|done| |].
    { rewrite EL3. apply listing_nil. intros k Hk.
      destruct (String.prefix src k) eqn:Hp; [|done].
      rewrite (Honly k Hk Hp), Hsent3 in Hk. by destruct Hk. }
    erewrite try_Raise.
    2:{ erewrite bind_Ret by exact Hrun1. cbn [negb].
        erewrite bind_Ret by reflexivity.
        erewrite bind_Ret by exact Hrun2.
        erewrite bind_Ret by reflexivity.
        erewrite bind_Ret by exact Hloop.
        erewrite bind_Ret by exact Hrun4. reflexivity. }
    eexists. split; [reflexivity|]. simpl. rewrite (same_objects _ _ Hw4).
    split; [|done].
    rewrite EL3. apply listing_nil. intros k Hk.
    destruct (String.prefix src k) eqn:Hp; [|done].
    rewrite (Honly k Hk Hp), Hsent3 in Hk. by destruct Hk.
Qed.

Lemma flat_content (src : string) (m : gmap string Object) :
  Forall (λ s, endswith (Key s) "/" = false) (contents (Some src) m) →
  ∀ k, is_Some (m !! k) → inside (Some src) k → endswith k "/" = false.
Proof.
  intros Hall k Hk Hin.
  assert (Hkl : k ∈ Key <$> contents (Some src) m)
    by by apply elem_of_contents_keys.
  apply list_elem_of_fmap in Hkl as (s & -> & Hs).
  rewrite Forall_forall in Hall. by apply Hall.
Qed.

(** X16. On a reliable store, [move_folder] moves a folder that holds its
    sentinel and files only (no key of its content ends in ['/']) to a
    destination that is apart from it (neither prefix extends the other):
    afterwards no key is left under the source prefix, every file of the
    source is found, with its content and content type, under the key that
    has the destination prefix in place of the source prefix, and the keys
    outside both prefixes are as before.  The result of the completed move
    is [None]. *)
Theorem move_folder_moves_files (fuel : nat) (old_name new_name : string)
    (w : World) (o : Object) :
  let src := with_slash old_name in
  let dst := with_slash new_name in
  faults w = [] → 0 < page_cap w →
  length (all_under (Some src) (objects w)) < fuel →
  String.prefix src dst = false → String.prefix dst src = false →
  Forall (λ s, endswith (Key s) "/" = false) (contents (Some src) (objects w)) →
  objects w !! src = Some o →
  ∃ w',
    Bucket.move_folder fuel old_name new_name w = (Ret None, w')
    ∧ all_under (Some src) (objects w') = []
    ∧ (∀ k o, objects w !! k = Some o → inside (Some src) k →
         ∃ o', objects w' !! replace_first k src dst = Some o'
               ∧ Body o' = Body o ∧ ObjContentType o' = ObjContentType o)
    ∧ (∀ k, String.prefix src k = false → String.prefix dst k = false →
            objects w' !! k = objects w !! k).
Proof.
  intros src dst Hf Hcap Hfuel Hsd Hds Hflat Hsent.
  destruct (move_folder_flat fuel old_name new_name w)
    as (w' & Hrun & Hgone & Hmoved); try done.
  { by apply flat_content. }
  fold src in Hrun. rewrite Hsent in Hrun.
  exists w'. do 3 (split; [done|]). intros k Hk1 Hk2.
  pose proof (confined_move_folder fuel old_name new_name w k) as Hframe.
  rewrite Hrun in Hframe. apply Hframe. fold src dst. intros [?|?]; congruence.
Qed.

Lemma move_folder_moves_files_witness :
  let w := Examples.world
             [("a/", EmptyString); ("a/x", "1"); ("a/y", "2"); ("c", "3")]
             1000 [] [] in
  ∃ w',
    Bucket.move_folder 5 "a" "b" w = (Ret None, w')
    ∧ all_under (Some "a/") (objects w') = []
    ∧ (∀ k o, objects w !! k = Some o → inside (Some "a/") k →
         ∃ o', objects w' !! replace_first k "a/" "b/" = Some o'
               ∧ Body o' = Body o ∧ ObjContentType o' = ObjContentType o)
    ∧ (∀ k, String.prefix "a/" k = false → String.prefix "b/" k = false →
            objects w' !! k = objects w !! k).
Proof.
  apply (move_folder_moves_files 5 "a" "b"
           (Examples.world
              [("a/", EmptyString); ("a/x", "1"); ("a/y", "2"); ("c", "3")]
              1000 [] [])
           (Examples.file EmptyString));
    [reflexivity | vm_compute; lia | vm_compute; lia | reflexivity
    | reflexivity | vm_compute; repeat constructor | reflexivity].
Defined.

(** X17. A folder without sentinel (one that exists only as the prefix of
    its files) is moved just as well, yet [move_folder] reports failure:
    under the hypotheses of X16 but with no object under the source
    folder's own key, every file arrives under the destination and nothing
    is left under the source, and the result is [False], because the final
    [delete_object] of the source folder finds nothing to delete. *)
Theorem move_folder_without_sentinel (fuel : nat) (old_name new_name : string)
    (w : World) :
  let src := with_slash old_name in
  let dst := with_slash new_name in
  faults w = [] → 0 < page_cap w →
  length (all_under (Some src) (objects w)) < fuel →
  String.prefix src dst = false → String.prefix dst src = false →
  Forall (λ s, endswith (Key s) "/" = false) (contents (Some src) (objects w)) →
  objects w !! src = None →
  contents (Some src) (objects w) ≠ [] →
  ∃ w',
    Bucket.move_folder fuel old_name new_name w = (Ret (Some false), w')
    ∧ all_under (Some src) (objects w') = []
    ∧ (∀ k o, objects w !! k = Some o → inside (Some src) k →
         ∃ o', objects w' !! replace_first k src dst = Some o'
               ∧ Body o' = Body o ∧ ObjContentType o' = ObjContentType o).
Proof.
  intros src dst Hf Hcap Hfuel Hsd Hds Hflat Hsent _.
  destruct (move_folder_flat fuel old_name new_name w)
    as (w' & Hrun & Hgone & Hmoved); try done.
  { by apply flat_content. }
  fold src in Hrun. rewrite Hsent in Hrun. eauto.
Qed.

Lemma move_folder_without_sentinel_witness :
  let w := Examples.world [("a/x", "1"); ("a/y", "2")] 1000 [] [] in
  ∃ w',
    Bucket.move_folder 5 "a" "b" w = (Ret (Some false), w')
    ∧ all_under (Some "a/") (objects w') = []
    ∧ (∀ k o, objects w !! k = Some o → inside (Some "a/") k →
         ∃ o', objects w' !! replace_first k "a/" "b/" = Some o'
               ∧ Body o' = Body o ∧ ObjContentType o' = ObjContentType o).
Proof.
  apply (move_folder_without_sentinel 5 "a" "b"
           (Examples.world [("a/x", "1"); ("a/y", "2")] 1000 [] []));
    [reflexivity | vm_compute; lia | vm_compute; lia | reflexivity
    | reflexivity | vm_compute; repeat constructor | reflexivity
    | vm_compute; done].
Defined.

(** ** Further facts about listings *)

(** X18. A store failure looks like an absent folder: when the first list
    request fails, [get_object_list] returns [False] in the listing mode
    and in the probe mode alike, whatever the error, and the bucket is
    unchanged. *)
Theorem get_object_list_failed_request (fuel : nat)
    (folder_name : option string) (check_folder : bool) (w : World)
    (e : exn) (fs : list (option exn)) :
  0 < fuel → faults w = Some e :: fs →
  ∃ w',
    Bucket.get_object_list fuel folder_name check_folder w = (Ret LFalse, w')
    ∧ objects w' = objects w
    ∧ requests w' =
        requests w ++
        [ReqList (prefix_param folder_name) None
                 (if check_folder then Some 2 else None)].
Proof.
  destruct fuel as [|fuel]; [lia|]. intros _ Hf.
  unfold Bucket.get_object_list. cbn [Bucket.list_pages].
  fold (normalized folder_name). fold (prefix_param folder_name).
  unfold try_except, bind, Client.list_objects_v2, Client.call. simpl.
  rewrite Hf. simpl. eauto.
Qed.

Lemma get_object_list_failed_request_witness :
  ∃ w',
    Bucket.get_object_list 1 (Some "a") false
      (Examples.world [("a/x", "1")] 1000 [] [Some (ClientError "500")])
      = (Ret LFalse, w')
    ∧ objects w' =
        objects (Examples.world [("a/x", "1")] 1000 [] [Some (ClientError "500")])
    ∧ requests w' = [] ++ [ReqList (prefix_param (Some "a")) None None].
Proof.
  apply (get_object_list_failed_request 1 (Some "a") false
           (Examples.world [("a/x", "1")] 1000 [] [Some (ClientError "500")])
           (ClientError "500") []);
    [lia | reflexivity].
Defined.

(** X19. On a reliable store the listing mode tells a folder without
    content from a folder that is absent: for a folder key with nothing
    else under it, the result is the empty list when the sentinel is there
    and [False] when it is not.  Both results are falsy. *)
Theorem get_object_list_empty_folder (fuel : nat) (f : string) (w : World) :
  endswith f "/" = true → faults w = [] → 0 < page_cap w → 1 < fuel →
  contents (Some f) (objects w) = [] →
  (Bucket.get_object_list fuel (Some f) false w).1 =
    Ret (match objects w !! f with
         | Some _ => LObjects []
         | None => LFalse
         end)
  ∧ truthy (LObjects []) = truthy LFalse.
Proof.
  intros Hend Hf Hcap Hfuel Hc. split; [|done].
  pose proof (all_under_length (Some f) (objects w)) as Hlen.
  rewrite Hc in Hlen. simpl in Hlen.
  destruct (get_object_list_reliable fuel (Some f) w)
    as (w' & Hrun & _); [done|done|lia|].
  rewrite Hrun, Hc. simpl.
  destruct (all_under_folder_key f (objects w) Hend) as (_ & EL & Ec).
  rewrite EL. rewrite Hc in Ec.
  destruct (objects w !! f) as [o|] eqn:Ho.
  - by destruct (listing_sentinel_first f (objects w) o Ho) as [rest ->].
  - destruct (Client.listing f (objects w)) as [|s rest] eqn:E; [done|].
    exfalso. rewrite filter_cons_True in Ec; [done|].
    apply (listing_without_sentinel f (objects w)); [done|].
    rewrite E. by left.
Qed.

Lemma get_object_list_empty_folder_witness :
  (Bucket.get_object_list 2 (Some "f/") false Examples.empty_folder).1 =
    Ret (match objects Examples.empty_folder !! "f/" with
         | Some _ => LObjects []
         | None => LFalse
         end)
  ∧ truthy (LObjects []) = truthy LFalse.
Proof.
  apply (get_object_list_empty_folder 2 "f/" Examples.empty_folder);
    [reflexivity | reflexivity | vm_compute; lia | lia
    | vm_compute; reflexivity].
Defined.

(** Without a folder name the loop ends without one. *)
Lemma list_pages_no_name (fuel : nat) :
  ∀ check_folder acc token w g l,
    (Bucket.list_pages fuel None check_folder acc token w).1
    ≠ Ret (Break (Some g) l).
Proof.
  induction fuel as [|fuel IH]; intros check_folder acc token w g l; [done|].
  cbn [Bucket.list_pages]. unfold bind.
  destruct (Client.list_objects_v2 None token _ w) as [[r|e|] w1]; [|done..].
  assert (Hpaginate : ∀ l',
    ((if IsTruncated r
      then print (Text "Continuation Token Present...") ;;
           Bucket.list_pages fuel None false l' (NextContinuationToken r)
      else ret (Break None l')) w1).1 ≠ Ret (Break (Some g) l)).
  { intros l'. destruct (IsTruncated r); [|done]. unfold bind, print. apply IH. }
  destruct check_folder; [by destruct (Contents r)|].
  destruct (Contents r); [apply Hpaginate|].
  destruct (length acc =? 0); [done|apply Hpaginate].
Qed.

(** The loop for the folder name [''] runs as for no folder name. *)
Lemma list_pages_empty_name (fuel : nat) :
  ∀ check_folder acc token w,
    Bucket.list_pages fuel (Some EmptyString) check_folder acc token w =
    (match (Bucket.list_pages fuel None check_folder acc token w).1 with
     | Ret (Break _ l) => Ret (Break (Some EmptyString) l)
     | r => r
     end,
     (Bucket.list_pages fuel None check_folder acc token w).2).
Proof.
  induction fuel as [|fuel IH]; intros check_folder acc token w; [done|].
  cbn [Bucket.list_pages truthy_str String.eqb negb].
  unfold bind. destruct (Client.list_objects_v2 None token _ w) as [[r|e|] w1];
    [|done..].
  destruct check_folder; [by destruct (Contents r)|].
  assert (Hpaginate : ∀ l,
    (if IsTruncated r
     then print (Text "Continuation Token Present...") ;;
          Bucket.list_pages fuel (Some EmptyString) false l
            (NextContinuationToken r)
     else ret (Break (Some EmptyString) l)) w1 =
    (match ((if IsTruncated r
             then print (Text "Continuation Token Present...") ;;
                  Bucket.list_pages fuel None false l (NextContinuationToken r)
             else ret (Break None l)) w1).1 with
     | Ret (Break _ l') => Ret (Break (Some EmptyString) l')
     | r' => r'
     end,
     ((if IsTruncated r
       then print (Text "Continuation Token Present...") ;;
            Bucket.list_pages fuel None false l (NextContinuationToken r)
       else ret (Break None l)) w1).2)).
  { intros l. destruct (IsTruncated r); [|done].
    unfold bind, print. apply IH. }
  destruct (Contents r); [apply Hpaginate|].
  destruct (length acc =? 0); [done|apply Hpaginate].
Qed.

(** X20. The folder name is normalised before it is used: for every world
    and store behaviour, [get_object_list] runs the same for a non-empty
    name with and without its final ['/'], and for the empty name it
    returns what it returns for no name at all (the whole bucket). *)
Theorem get_object_list_name_normalised (fuel : nat) (f : string)
    (check_folder : bool) (w : World) :
  (truthy_str f = true →
   Bucket.get_object_list fuel (Some f) check_folder w
   = Bucket.get_object_list fuel (Some (with_slash f)) check_folder w)
  ∧ Bucket.get_object_list fuel (Some EmptyString) check_folder w
    = Bucket.get_object_list fuel None check_folder w.
Proof.
  split.
  - intros Hf.
    assert (E : Bucket.list_pages fuel (Some f) check_folder [] None
                = Bucket.list_pages fuel (Some (with_slash f)) check_folder
                    [] None).
    { destruct fuel as [|fuel]; [done|]. cbn [Bucket.list_pages].
      rewrite Hf, !with_slash_truthy, with_slash_idemp, ?with_slash_truthy.
      reflexivity. }
    unfold Bucket.get_object_list. by rewrite E.
  - unfold Bucket.get_object_list, try_except, bind.
    rewrite list_pages_empty_name.
    pose proof (list_pages_no_name fuel check_folder [] None w) as Hnone.
    destruct (Bucket.list_pages fuel None check_folder [] None w)
      as [[[r|fn l]|e|] w1]; simpl in *; try done.
    destruct fn as [g|]; [|done]. by destruct (Hnone g l).
Qed.

Lemma get_object_list_name_normalised_witness :
  Bucket.get_object_list 3 (Some "a") false Examples.with_sentinel
  = Bucket.get_object_list 3 (Some "a/") false Examples.with_sentinel.
Proof.
  apply (proj1 (get_object_list_name_normalised 3 "a" false
                  Examples.with_sentinel)).
  reflexivity.
Defined.

(** ** The credentials check and the link generator *)

(** X21. [check_credentials] never raises and never runs out: it sends one
    [list_buckets] request, returns [True] when the store serves it and
    [False] when the store refuses it, whatever the exception, prints one
    line either way and leaves the bucket as it was. *)
Theorem check_credentials_verdict (w : World) :
  ∃ w',
    Bucket.check_credentials w
    = (Ret (match faults w with Some _ :: _ => false | _ => true end), w')
    ∧ requests w' = requests w ++ [ReqListBuckets]
    ∧ objects w' = objects w
    ∧ length (stdout w') = S (length (stdout w)).
Proof.
  unfold Bucket.check_credentials, try_except, bind, Client.list_buckets,
    Client.call.
  simpl.
  destruct (faults w) as [|[e|] fs] eqn:Hfs; simpl; rewrite ?Hfs; simpl.
  - eexists. split; [reflexivity|]. simpl.
    rewrite length_app. simpl. repeat split; lia.
  - destruct e as [code|name| | | | | |]; simpl;
      try destruct (String.eqb code "InvalidAccessKeyId");
      try destruct (String.eqb code "SignatureDoesNotMatch");
      try destruct (String.eqb name "NoCredentialsError"); simpl;
      (eexists; split; [reflexivity|]); simpl;
      rewrite length_app; simpl; repeat split; lia.
  - eexists. split; [reflexivity|]. simpl.
    rewrite length_app. simpl. repeat split; lia.
Qed.

(** X22. For a key that is present, when the store serves the metadata
    probe, [get_file_link] returns the URL that the store signs for this
    very key and expiration, and [False] when the store refuses to sign;
    the bucket is left as it was.  (For the empty key, which the client
    rejects, the result is [False].) *)
Theorem get_file_link_present (file_name : string) (expiration : nat)
    (w : World) (o : Object) :
  objects w !! file_name = Some o →
  (∀ e fs, faults w ≠ Some e :: fs) →
  ∃ w',
    Bucket.get_file_link file_name expiration w
    = (Ret (if truthy_str file_name then
              match drop 1 (faults w) with
              | Some _ :: _ => None
              | _ => Some (Presigned file_name expiration)
              end
            else None), w')
    ∧ objects w' = objects w.
Proof.
  intros Ho Hserved.
  unfold Bucket.get_file_link, try_except, bind.
  destruct (decide (file_name = EmptyString)) as [->|Hk].
  { rewrite get_file_metadata_empty. simpl. eauto. }
  rewrite (truthy_str_true _ Hk).
  destruct (get_file_metadata_present file_name w o Hk Hserved Ho)
    as (d & w1 & -> & _ & Ho1 & _ & _ & _ & Hf1 & _).
  unfold Client.generate_presigned_url, Client.call. simpl.
  rewrite (truthy_str_true _ Hk), Hf1.
  replace (drop 1 (faults w)) with (tail (faults w)) by by destruct (faults w).
  destruct (tail (faults w)) as [|[e|] fs]; simpl; eexists; by split.
Qed.

Lemma get_file_link_present_witness :
  ∃ w',
    Bucket.get_file_link "a/x" 3600 Examples.with_sentinel
    = (Ret (Some (Presigned "a/x" 3600)), w')
    ∧ objects w' = objects Examples.with_sentinel.
Proof.
  apply (get_file_link_present "a/x" 3600 Examples.with_sentinel
           (Examples.file "1")); [reflexivity|done].
Defined.

(** ** The empty key *)

(** X23. The empty string is not a key: the client rejects it before
    anything is sent, whatever the state of the store.  [delete_object]
    and [get_file_link] then return [False]; [get_file_metadata],
    [move_file] to the empty key and [upload_file] under the empty name
    (of a local file that exists) raise [AttributeError], because their
    handlers read [e.response], which the client's error does not have.
    In each case the bucket and the schedule of the store are
    untouched. *)
Theorem empty_key_is_rejected (fuel : nat) (w : World) :
  rejected (Bucket.get_file_metadata EmptyString) (Raise AttributeError) w
  ∧ (∀ expiration,
       rejected (Bucket.get_file_link EmptyString expiration) (Ret None) w)
  ∧ rejected (Bucket.delete_object fuel EmptyString) (Ret false) w
  ∧ (∀ old_name,
       rejected (Bucket.move_file fuel old_name EmptyString)
         (Raise AttributeError) w)
  ∧ (∀ file_path replace,
       is_Some (disk w !! file_path) →
       rejected (Bucket.upload_file file_path (Some EmptyString) replace)
         (Raise AttributeError) w).
Proof.
  split; [done|]. split; [done|]. split; [done|]. split; [done|].
  intros file_path replace [bytes Hd]. unfold rejected.
  rewrite (upload_file_found _ _ _ _ bytes Hd). cbn [default].
  by erewrite bind_Raise by apply get_file_metadata_empty.
Qed.
